(** * GCashPDFParser: a shallow embedding of src/parsers/GCashPDFParser.ts

    The development follows the TypeScript class [GCashPDFParser]:
    - JavaScript strings are sequences of UTF-16 code units ([list N]);
    - JavaScript numbers that carry page coordinates are rationals ([Q]:
      every finite double is one); [Number.POSITIVE_INFINITY] is a separate
      constructor.  Comparisons of doubles are exact.  The two expressions
      whose value is rounded, the boundary between two columns and the
      difference of two heights in the clustering of rows, are also given
      with the arithmetic as a parameter ([computeColumnBoundariesWith],
      [clustersOfWith]); module [Double] has their IEEE binary64 instance;
    - the instance fields of the class are a record that is threaded
      through [parse];
    - the external PDF library (pdfjs-dist) is represented by the outcome of
      its calls: the document either fails to load or yields pages, and each
      page either fails to decode or yields its text items. *)

From Stdlib Require Import String Ascii NArith ZArith QArith Qabs.
From Stdlib Require Import Bool Arith Lia Lqa List Sorted Permutation.
From Corelib Require PrimFloat FloatOps SpecFloat.
Import ListNotations.

Set Implicit Arguments.

(* ================================================================== *)
(** ** JavaScript strings *)
(* ================================================================== *)

Module JS.

(** A string is the list of its UTF-16 code units. *)
Definition jsstring := list N.

(** An ASCII literal of the source, as code units. *)
Definition lit (s : string) : jsstring :=
  List.map N_of_ascii (list_ascii_of_string s).

(** The class [\d] of a regular expression. *)
Definition is_digit (c : N) : bool := ((48 <=? c) && (c <=? 57))%N.

(** Line terminators: LF, CR, LS, PS.  The regular expression atom [.]
    (without the [s] flag) matches every code unit but these. *)
Definition is_line_terminator (c : N) : bool :=
  ((c =? 10) || (c =? 13) || (c =? 8232) || (c =? 8233))%N.

(** The class [\s]: WhiteSpace and LineTerminator of ECMAScript.  The same
    set is removed by [String.prototype.trim]. *)
Definition is_space (c : N) : bool :=
  ((c =? 9) || (c =? 10) || (c =? 11) || (c =? 12) || (c =? 13) || (c =? 32)
   || (c =? 160) || (c =? 5760)
   || ((8192 <=? c) && (c <=? 8202))
   || (c =? 8232) || (c =? 8233) || (c =? 8239) || (c =? 8287)
   || (c =? 12288) || (c =? 65279))%N.

Definition dot (c : N) : bool := negb (is_line_terminator c).

Fixpoint eqb (a b : jsstring) : bool :=
  match a, b with
  | [], [] => true
  | c :: a', d :: b' => (c =? d)%N && eqb a' b'
  | _, _ => false
  end.

(** [starts_with p s]: [s.startsWith(p)]. *)
Fixpoint starts_with (p s : jsstring) : bool :=
  match p, s with
  | [], _ => true
  | c :: p', d :: s' => (c =? d)%N && starts_with p' s'
  | _ :: _, [] => false
  end.

(** [includes s needle]: [s.includes(needle)]. *)
Fixpoint includes (s needle : jsstring) : bool :=
  starts_with needle s ||
  match s with
  | [] => false
  | _ :: s' => includes s' needle
  end.

(** [String.prototype.trim]. *)
Fixpoint trim_start (s : jsstring) : jsstring :=
  match s with
  | [] => []
  | c :: s' => if is_space c then trim_start s' else s
  end.

Definition trim_end (s : jsstring) : jsstring := rev (trim_start (rev s)).

Definition trim (s : jsstring) : jsstring := trim_end (trim_start s).

(** [Array.prototype.join] on an array of strings. *)
Fixpoint join (sep : jsstring) (l : list jsstring) : jsstring :=
  match l with
  | [] => []
  | [a] => a
  | a :: rest => a ++ sep ++ join sep rest
  end.

(** Truthiness of a string: the empty string is the only falsy one. *)
Definition truthy (s : jsstring) : bool :=
  match s with [] => false | _ :: _ => true end.

End JS.

Import JS.

(* ================================================================== *)
(** ** JavaScript numbers and arrays *)
(* ================================================================== *)

Module Num.

(** Strict comparison [a < b] on coordinates. *)
Definition ltb (a b : Q) : bool := negb (Qle_bool b a).

(** [a <= b]. *)
Definition leb (a b : Q) : bool := Qle_bool a b.

(** Truthiness of a number: [0] is falsy. *)
Definition truthy (a : Q) : bool := negb (Qeq_bool a 0).

(** A number that may be [Number.POSITIVE_INFINITY]. *)
Inductive bound : Type :=
| Fin (q : Q)
| PosInf.

(** [x < b] for a possibly infinite right-hand side. *)
Definition lt_bound (x : Q) (b : bound) : bool :=
  match b with
  | Fin q => ltb x q
  | PosInf => true
  end.

End Num.

Module Arr.

Section Generic.
Variable A : Type.

(** [Array.prototype.findIndex]: [None] stands for the result [-1]. *)
Fixpoint findIndex (p : A -> bool) (l : list A) : option nat :=
  match l with
  | [] => None
  | a :: l' =>
      if p a then Some 0%nat
      else match findIndex p l' with
           | Some i => Some (S i)
           | None => None
           end
  end.

(** [Array.prototype.some]. *)
Definition some (p : A -> bool) (l : list A) : bool := existsb p l.

(** [Array.prototype.sort] with a comparator returning a number.  The sort
    is stable, and for a comparator of the shape [key a - key b] the result
    is the stable ordering by that key: an element is moved behind exactly
    those earlier-placed elements that compare strictly smaller. *)
Fixpoint insert (cmp : A -> A -> Q) (a : A) (l : list A) : list A :=
  match l with
  | [] => [a]
  | b :: l' =>
      if Num.ltb 0 (cmp a b) then b :: insert cmp a l' else a :: b :: l'
  end.

Fixpoint sort (cmp : A -> A -> Q) (l : list A) : list A :=
  match l with
  | [] => []
  | a :: l' => insert cmp a (sort cmp l')
  end.

(** [forEach]/[map] with the element index. *)
Fixpoint mapi_from (B : Type) (f : nat -> A -> B) (i : nat) (l : list A)
  : list B :=
  match l with
  | [] => []
  | a :: l' => f i a :: mapi_from f (S i) l'
  end.

Definition mapi (B : Type) (f : nat -> A -> B) (l : list A) : list B :=
  mapi_from f 0 l.

End Generic.

End Arr.

(* ================================================================== *)
(** ** Data model (the interfaces of the source file) *)
(* ================================================================== *)

(** [interface TextItem]: the fields the parser reads. *)
Record TextItem : Type := mkTextItem {
  str : jsstring;
  item_x : Q;
  item_y : Q;
  item_width : option Q
}.

(** [interface ColumnInfo]; [minX] and [maxX] are optional and are only
    set by [computeColumnBoundaries]. *)
Record ColumnInfo : Type := mkColumnInfo {
  name : jsstring;
  x : Q;
  width : Q;
  minX : option Q;
  maxX : option Num.bound
}.

(** [interface HeaderEntry]. *)
Record HeaderEntry : Type := mkHeaderEntry {
  h_entryNo : nat;
  h_dateTime : jsstring;
  h_description : jsstring;
  h_referenceNo : jsstring
}.

(** [interface NumericEntry]. *)
Record NumericEntry : Type := mkNumericEntry {
  n_entryNo : nat;
  n_debit : jsstring;
  n_credit : jsstring;
  n_balance : jsstring
}.

(** [Transaction] of models/Transaction. *)
Record Transaction : Type := mkTransaction {
  dateTime : jsstring;
  description : jsstring;
  referenceNo : jsstring;
  debit : jsstring;
  credit : jsstring;
  balance : jsstring
}.

(* ================================================================== *)
(** ** The two regular expressions of the parser *)
(* ================================================================== *)

Module Regex.

(** A matcher tries to match at the start of its input and returns the
    matched text with the text that follows it. *)
Definition matcher := jsstring -> option (jsstring * jsstring).

(** One code unit of a character class. *)
Definition class (p : N -> bool) : matcher := fun s =>
  match s with
  | c :: s' => if p c then Some ([c], s') else None
  | [] => None
  end.

Definition chr (c : N) : matcher := class (N.eqb c).

(** Concatenation. *)
Definition seq (m1 m2 : matcher) : matcher := fun s =>
  match m1 s with
  | Some (a, r) =>
      match m2 r with
      | Some (b, r') => Some (a ++ b, r')
      | None => None
      end
  | None => None
  end.

(** [m{n}]. *)
Fixpoint rep (n : nat) (m : matcher) : matcher :=
  match n with
  | O => fun s => Some ([], s)
  | S n' => seq m (rep n' m)
  end.

(** The longest run of a class: what greedy [c*] takes first. *)
Fixpoint class_star (p : N -> bool) (s : jsstring) : jsstring * jsstring :=
  match s with
  | c :: s' =>
      if p c then let (a, r) := class_star p s' in (c :: a, r) else ([], s)
  | [] => ([], [])
  end.

(** Greedy [c+].  In both patterns below [\s+] is followed by an atom that
    no white space matches ([\d] or [[AP]]), so after giving back a white
    space the next atom fails on it: the longest run is the only candidate
    of the backtracking search. *)
Definition class_plus (p : N -> bool) : matcher :=
  seq (class p) (fun s => Some (class_star p s)).

Definition digit : matcher := class is_digit.
Definition space : matcher := class is_space.

(** Greedy [\d{1,2}]; it is followed by [:], which no digit matches, so
    after two digits were taken one digit alone cannot succeed. *)
Definition digit_1_2 : matcher := fun s =>
  match rep 2 digit s with
  | Some r => Some r
  | None => digit s
  end.

(** [/\d{4}-\d{2}-\d{2}\s+\d{1,2}:\d{2}\s+[AP]M/] at the start of the
    input. *)
Definition dateTimePattern : matcher :=
  seq (rep 4 digit) (seq (chr 45) (seq (rep 2 digit) (seq (chr 45)
  (seq (rep 2 digit) (seq (class_plus is_space) (seq digit_1_2 (seq (chr 58)
  (seq (rep 2 digit) (seq (class_plus is_space)
  (seq (class (fun c => (c =? 65) || (c =? 80))%N) (chr 77))))))))))).

(** [RegExp.prototype.test] of a pattern without flags: a match may start
    at any index. *)
Fixpoint test (m : matcher) (s : jsstring) : bool :=
  match m s with
  | Some _ => true
  | None =>
      match s with
      | [] => false
      | _ :: s' => test m s'
      end
  end.

(** [\s{3}(\d{13})]: the separator and the reference number; the result is
    the captured digits and the rest. *)
Definition sep_ref : matcher := fun s =>
  match rep 3 space s with
  | Some (_, r) => rep 13 digit r
  | None => None
  end.

(** [(.+?)\s{3}(\d{13})]: the lazy quantifier first tries one character,
    then one more each time the continuation fails.  The result is the
    second and third captures and the rest. *)
Fixpoint lazy_description (s : jsstring)
  : option (jsstring * jsstring * jsstring) :=
  match s with
  | [] => None
  | c :: s' =>
      if dot c then
        match sep_ref s' with
        | Some (ref, rest) => Some ([c], ref, rest)
        | None =>
            match lazy_description s' with
            | Some (d, ref, rest) => Some (c :: d, ref, rest)
            | None => None
            end
        end
      else None
  end.

(** The header pattern
    [/(\d{4}-\d{2}-\d{2}\s+\d{1,2}:\d{2}\s+[AP]M)\s{3}(.+?)\s{3}(\d{13})/]
    at the start of the input: the three captures and the rest. *)
Definition header_at (s : jsstring)
  : option (jsstring * jsstring * jsstring * jsstring) :=
  match dateTimePattern s with
  | Some (dt, r1) =>
      match rep 3 space r1 with
      | Some (_, r2) =>
          match lazy_description r2 with
          | Some (d, ref, rest) => Some (dt, d, ref, rest)
          | None => None
          end
      | None => None
      end
  | None => None
  end.

(** [pattern.exec(text)] of the global header pattern, where the input is
    the text from [lastIndex] on: the first index at which the pattern
    matches, and as rest the text from the new [lastIndex] on. *)
Fixpoint exec (s : jsstring)
  : option (jsstring * jsstring * jsstring * jsstring) :=
  match header_at s with
  | Some r => Some r
  | None =>
      match s with
      | [] => None
      | _ :: s' => exec s'
      end
  end.

End Regex.

(* ================================================================== *)
(** ** Column model *)
(* ================================================================== *)

Module Columns.

Local Open Scope Q_scope.

(** The predicate of [items.findIndex] in [identifyColumnPositions]. *)
Definition isHeaderCandidate (item : TextItem) : bool :=
  includes (str item) (lit "Date and Time") ||
  includes (str item) (lit "Reference No") ||
  includes (str item) (lit "Debit") ||
  includes (str item) (lit "Credit") ||
  includes (str item) (lit "Balance").

(** The array of names of the [filter] in [identifyColumnPositions]. *)
Definition headerNames : list jsstring :=
  [ lit "Date and Time"; lit "Description"; lit "Reference No";
    lit "Debit"; lit "Credit"; lit "Balance" ].

(** The predicate of [items.filter], for the header item [h]. *)
Definition onHeaderRow (h item : TextItem) : bool :=
  Num.ltb (Qabs (item_y item - item_y h)) 2 &&
  Arr.some (fun header => includes (str item) header) headerNames.

(** [{ name: item.str.trim(), x: item.x, width: item.width || 0 }]. *)
Definition columnOfItem (item : TextItem) : ColumnInfo :=
  mkColumnInfo (trim (str item)) (item_x item)
    (match item_width item with
     | Some w => if Num.truthy w then w else 0
     | None => 0
     end)
    None None.

Definition fallbackColumns : list ColumnInfo :=
  [ mkColumnInfo (lit "Date and Time") 0 150 None None;
    mkColumnInfo (lit "Description") 150 250 None None;
    mkColumnInfo (lit "Reference No") 400 100 None None;
    mkColumnInfo (lit "Debit") 500 80 None None;
    mkColumnInfo (lit "Credit") 580 80 None None;
    mkColumnInfo (lit "Balance") 660 80 None None ].

(** The columns built from the row of the header item [h]. *)
Definition columnsOfHeaderRow (h : TextItem) (items : list TextItem)
  : list ColumnInfo :=
  List.map columnOfItem (List.filter (onHeaderRow h) items).

(** [identifyColumnPositions]: the new value of [this.columnPositions].
    The index returned by [findIndex] is always in range (lemma
    [findIndex_Some] below), so the last branch is never taken. *)
Definition identifyColumnPositions (items : list TextItem)
  : list ColumnInfo :=
  match Arr.findIndex isHeaderCandidate items with
  | Some headerRowIndex =>
      match nth_error items headerRowIndex with
      | Some h => columnsOfHeaderRow h items
      | None => []
      end
  | None => fallbackColumns
  end.

(** The first loop of [computeColumnBoundaries], over the sorted columns:
    [boundaries[i] = current.x + (next.x - current.x) / 2], evaluated
    without rounding ([boundariesWith] below has the arithmetic as a
    parameter). *)
Fixpoint boundaries (cols : list ColumnInfo) : list Q :=
  match cols with
  | current :: (next :: _) as rest =>
      (x current + (x next - x current) / 2) :: boundaries rest
  | _ => []
  end.

(** The body of the [forEach] of [computeColumnBoundaries]; reading
    [boundaries] outside its range gives [undefined]. *)
Definition withBounds (len : nat) (bs : list Q) (idx : nat)
  (col : ColumnInfo) : ColumnInfo :=
  mkColumnInfo (name col) (x col) (width col)
    (if Nat.eqb idx 0 then Some 0 else nth_error bs (idx - 1))
    (if Nat.eqb idx (len - 1) then Some Num.PosInf
     else option_map Num.Fin (nth_error bs idx)).

(** [computeColumnBoundaries]: the new value of [this.columnPositions]. *)
Definition computeColumnBoundaries (cols : list ColumnInfo)
  : list ColumnInfo :=
  let sorted := Arr.sort (fun a b => x a - x b) cols in
  let bs := boundaries sorted in
  Arr.mapi (withBounds (length sorted) bs) sorted.

(** The same two loops with the arithmetic of the first one as a
    parameter: [mid cx nx] is the value of
    [current.x + (next.x - current.x) / 2] for [current.x = cx] and
    [next.x = nx].  The program evaluates the expression in IEEE binary64
    ([Double.mid] below); [boundaries] evaluates it without rounding.  The
    comparator of the sort is read for its sign only, which rounding does
    not change. *)
Fixpoint boundariesWith (mid : Q -> Q -> Q) (cols : list ColumnInfo)
  : list Q :=
  match cols with
  | current :: (next :: _) as rest =>
      mid (x current) (x next) :: boundariesWith mid rest
  | _ => []
  end.

Definition computeColumnBoundariesWith (mid : Q -> Q -> Q)
  (cols : list ColumnInfo) : list ColumnInfo :=
  let sorted := Arr.sort (fun a b => x a - x b) cols in
  let bs := boundariesWith mid sorted in
  Arr.mapi (withBounds (length sorted) bs) sorted.

End Columns.

(* ================================================================== *)
(** ** Row clustering and numeric entries *)
(* ================================================================== *)

Module Numeric.

Local Open Scope Q_scope.

(** The body of [sortedItems.forEach]: the item joins the first cluster
    whose first item lies within the tolerance, else it starts a cluster.
    Clusters are created with one item, so [cluster[0]] exists.  The
    difference is taken without rounding ([addToClustersWith] below has the
    subtraction as a parameter). *)
Fixpoint addToClusters (item : TextItem) (clusters : list (list TextItem))
  : list (list TextItem) :=
  match clusters with
  | [] => [[item]]
  | cluster :: rest =>
      match cluster with
      | first :: _ =>
          if Num.leb (Qabs (item_y item - item_y first)) 5
          then (cluster ++ [item]) :: rest
          else cluster :: addToClusters item rest
      | [] => cluster :: addToClusters item rest
      end
  end.

(** The clusters of a page, each sorted from left to right. *)
Definition clustersOf (items : list TextItem) : list (list TextItem) :=
  let sortedItems := Arr.sort (fun a b => item_y b - item_y a) items in
  let clusters :=
    fold_left (fun cs item => addToClusters item cs) sortedItems [] in
  List.map (Arr.sort (fun a b => item_x a - item_x b)) clusters.

(** The same loop with the subtraction of the tolerance test as a
    parameter: [sub a b] is the value of [item.y - cluster[0].y] for
    [item.y = a] and [cluster[0].y = b].  The program subtracts in IEEE
    binary64 ([Double.sub] below); [addToClusters] subtracts without
    rounding.  [Math.abs] and [<=] are exact, and the comparators of the two
    sorts are read for their sign only. *)
Fixpoint addToClustersWith (sub : Q -> Q -> Q) (item : TextItem)
  (clusters : list (list TextItem)) : list (list TextItem) :=
  match clusters with
  | [] => [[item]]
  | cluster :: rest =>
      match cluster with
      | first :: _ =>
          if Num.leb (Qabs (sub (item_y item) (item_y first))) 5
          then (cluster ++ [item]) :: rest
          else cluster :: addToClustersWith sub item rest
      | [] => cluster :: addToClustersWith sub item rest
      end
  end.

Definition clustersOfWith (sub : Q -> Q -> Q) (items : list TextItem)
  : list (list TextItem) :=
  let sortedItems := Arr.sort (fun a b => item_y b - item_y a) items in
  let clusters :=
    fold_left (fun cs item => addToClustersWith sub item cs) sortedItems []
  in
  List.map (Arr.sort (fun a b => item_x a - item_x b)) clusters.

(** [line.map((item) => item.str).join(" ")]. *)
Definition lineTextOf (line : list TextItem) : jsstring :=
  join (lit " ") (List.map str line).

(** The first [if] of the loop over the clusters: header and summary lines
    and blank lines. *)
Definition isSkippedLine (lineText : jsstring) : bool :=
  includes lineText (lit "Date and Time") ||
  includes lineText (lit "STARTING BALANCE") ||
  includes lineText (lit "ENDING BALANCE") ||
  includes lineText (lit "Total Debit") ||
  includes lineText (lit "Total Credit") ||
  negb (truthy (trim lineText)).

(** [this.columnPositions.find((col) => col.name === "Debit")]. *)
Definition debitColumn (cols : list ColumnInfo) : option ColumnInfo :=
  List.find (fun col => JS.eqb (name col) (lit "Debit")) cols.

(** [debitColumn?.minX || 500]. *)
Definition debitX (cols : list ColumnInfo) : Q :=
  match debitColumn cols with
  | Some col =>
      match minX col with
      | Some m => if Num.truthy m then m else 500
      | None => 500
      end
  | None => 500
  end.

(** [colValues]: the object with the keys Debit, Credit and Balance. *)
Record ColValues : Type := mkColValues {
  Debit : list jsstring;
  Credit : list jsstring;
  Balance : list jsstring
}.

(** [if (colValues[key]) colValues[key].push(v)]. *)
Definition pushValue (key v : jsstring) (cv : ColValues) : ColValues :=
  if JS.eqb key (lit "Debit")
  then mkColValues (Debit cv ++ [v]) (Credit cv) (Balance cv)
  else if JS.eqb key (lit "Credit")
  then mkColValues (Debit cv) (Credit cv ++ [v]) (Balance cv)
  else if JS.eqb key (lit "Balance")
  then mkColValues (Debit cv) (Credit cv) (Balance cv ++ [v])
  else cv.

Definition relevantColumns (cols : list ColumnInfo) : list ColumnInfo :=
  List.filter
    (fun col =>
       Arr.some (JS.eqb (name col))
         [lit "Debit"; lit "Credit"; lit "Balance"])
    cols.

(** [xPos >= col.minX && xPos < col.maxX]; a comparison with [undefined]
    is false. *)
Definition inColumn (xPos : Q) (col : ColumnInfo) : bool :=
  match minX col, maxX col with
  | Some lo, Some hi => Num.leb lo xPos && Num.lt_bound xPos hi
  | _, _ => false
  end.

(** The body of [backItems.forEach]. *)
Definition assignItem (cols : list ColumnInfo) (cv : ColValues)
  (item : TextItem) : ColValues :=
  match List.find (inColumn (item_x item)) (relevantColumns cols) with
  | Some col => pushValue (name col) (str item) cv
  | None => cv
  end.

(** [frontItems] and [backItems] of a line. *)
Definition splitLine (cols : list ColumnInfo) (line : list TextItem)
  : list TextItem * list TextItem :=
  List.partition (fun item => Num.ltb (item_x item) (debitX cols)) line.

(** [debitStr], [creditStr] and [balanceStr] of a line. *)
Definition numericFields (cols : list ColumnInfo) (line : list TextItem)
  : jsstring * jsstring * jsstring :=
  let backItems := snd (splitLine cols line) in
  let colValues :=
    fold_left (assignItem cols) backItems (mkColValues [] [] []) in
  (trim (join (lit " ") (Debit colValues)),
   trim (join (lit " ") (Credit colValues)),
   trim (join (lit " ") (Balance colValues))).

(** One iteration of [for (const line of clusters)]; the state is the
    local [numericEntryCount] with [this.numericEntries]. *)
Definition processLine (cols : list ColumnInfo)
  (st : nat * list NumericEntry) (line : list TextItem)
  : nat * list NumericEntry :=
  let lineText := lineTextOf line in
  if isSkippedLine lineText then st
  else if negb (Regex.test Regex.dateTimePattern lineText) then st
  else
    let '(debitStr, creditStr, balanceStr) := numericFields cols line in
    if truthy debitStr || truthy creditStr || truthy balanceStr then
      let numericEntryCount := S (fst st) in
      (numericEntryCount,
       snd st ++
         [mkNumericEntry numericEntryCount debitStr creditStr balanceStr])
    else st.

(** [extractNumericEntriesFromLineItems]: the new value of
    [this.numericEntries]. *)
Definition extractNumericEntriesFromLineItems (cols : list ColumnInfo)
  (numericEntries : list NumericEntry) (items : list TextItem)
  : list NumericEntry :=
  snd (fold_left (processLine cols) (clustersOf items)
         (List.length numericEntries, numericEntries)).

End Numeric.

(* ================================================================== *)
(** ** Coordinates in IEEE binary64 *)
(* ================================================================== *)

Module Double.

Import PrimFloat SpecFloat.

(** The value of a finite double.  Coordinates of a page are finite; an
    infinity or a NaN is given the value 0. *)
Definition toQ (f : float) : Q :=
  match FloatOps.Prim2SF f with
  | S754_finite s m e =>
      let n := if s then Zneg m else Zpos m in
      if (0 <=? e)%Z then Qmake (n * 2 ^ e) 1
      else Qmake n (Z.to_pos (2 ^ (- e)))
  | _ => 0%Q
  end.

(** The double of an integer, exact when the integer is a double. *)
Definition ofZ (z : Z) : float :=
  let n := Z.abs z in
  let t := Z.max 0 (Z.log2 n - 62) in
  let f :=
    FloatOps.Z.ldexp (of_uint63 (Uint63Axioms.of_Z (Z.shiftr n t))) t in
  if (z <? 0)%Z then (- f)%float else f.

(** The double of a fraction.  A denominator that is a power of two is
    applied as an exponent, so that the value given by [toQ] for a double
    is taken back to that double; any other fraction is divided out in
    binary64, which gives the nearest double when numerator and denominator
    are doubles, as for a decimal literal of up to 15 digits. *)
Definition ofQ (q : Q) : float :=
  let d := Zpos (Qden q) in
  let k := Z.log2 d in
  if (d =? 2 ^ k)%Z then FloatOps.Z.ldexp (ofZ (Qnum q)) (- k)
  else (ofZ (Qnum q) / ofZ d)%float.

(** [current.x + (next.x - current.x) / 2] of [computeColumnBoundaries]. *)
Definition boundary (current next : float) : float :=
  (current + (next - current) / 2)%float.

(** [item.y - cluster[0].y] of the clustering loop. *)
Definition difference (y first_y : float) : float :=
  (y - first_y)%float.

(** The two expressions on the rationals that are doubles. *)
Definition mid (cx nx : Q) : Q := toQ (boundary (ofQ cx) (ofQ nx)).

Definition sub (a b : Q) : Q := toQ (difference (ofQ a) (ofQ b)).

End Double.

(* ================================================================== *)
(** ** Header entries *)
(* ================================================================== *)

Module Header.

(** The [while ((match = pattern.exec(combinedText)) !== null)] loop.  Each
    match is at least one code unit long, so the rest gets shorter and
    [S (length text)] rounds are enough ([exec_loop_fuel] below). *)
Fixpoint exec_loop (fuel : nat) (s : jsstring) (entryNo : nat)
  : list HeaderEntry :=
  match fuel with
  | O => []
  | S fuel' =>
      match Regex.exec s with
      | None => []
      | Some (m1, m2, m3, rest) =>
          mkHeaderEntry (S entryNo) (trim m1) (trim m2) (trim m3)
            :: exec_loop fuel' rest (S entryNo)
      end
  end.

(** [extractHeaderEntriesFromPageTexts]. *)
Definition extractHeaderEntriesFromPageTexts (pageTexts : list jsstring)
  : list HeaderEntry :=
  let combinedText := join [10%N] pageTexts in
  exec_loop (S (List.length combinedText)) combinedText 0.

End Header.

(* ================================================================== *)
(** ** The parser object *)
(* ================================================================== *)

(** The instance fields of [GCashPDFParser] that the methods below read or
    write.  [pdfData] and [password] only feed the external library, whose
    answer is the [LoadOutcome] given to [parse]. *)
Record Parser : Type := mkParser {
  transactions : list Transaction;
  pageTexts : list jsstring;
  outputDir : jsstring;
  debug : bool;
  columnPositions : list ColumnInfo;
  numericEntries : list NumericEntry
}.

(** [GCashPDFParserOptions]. *)
Record Options : Type := mkOptions {
  opt_outputDir : option jsstring;
  opt_debug : option bool
}.

(** What [page.getTextContent()] gives for one page, after the mapping to
    [TextItem]; or the error of [getPage]/[getTextContent]. *)
Inductive PageOutcome : Type :=
| PageFailed (error : jsstring)
| PageItems (items : list TextItem).

(** What [pdfjsLib.getDocument(...).promise] gives: an error (wrong
    password, not a PDF) or the pages of the document. *)
Inductive LoadOutcome : Type :=
| LoadFailed (error : jsstring)
| Loaded (pages : list PageOutcome).

(** The result of the promise returned by [parse]. *)
Inductive ParseResult : Type :=
| Rejected (message : jsstring)
| Resolved (result : list Transaction).

Module GCashPDFParser.

(** The constructor (file-system effects are not part of the state). *)
Definition new (options : option Options) : Parser :=
  mkParser [] []
    (match options with
     | Some o =>
         match opt_outputDir o with
         | Some d => if truthy d then d else lit "output"
         | None => lit "output"
         end
     | None => lit "output"
     end)
    (match options with
     | Some o => match opt_debug o with Some b => b | None => false end
     | None => false
     end)
    [] [].

(** The body of [for (let i = 1; i <= pdf.numPages; i++)] for a page that
    was decoded. *)
Definition processPage (i : nat) (items : list TextItem) (p : Parser)
  : Parser :=
  let cols :=
    if Nat.eqb i 1
    then Columns.computeColumnBoundaries
           (Columns.identifyColumnPositions items)
    else columnPositions p in
  let pageText := join (lit " ") (List.map str items) in
  mkParser (transactions p) (pageTexts p ++ [pageText]) (outputDir p)
    (debug p) cols
    (Numeric.extractNumericEntriesFromLineItems cols (numericEntries p)
       items).

(** The page loop from page [i] on: the parser after the loop, and the
    error that ended it if a page failed. *)
Fixpoint pageLoop (i : nat) (pages : list PageOutcome) (p : Parser)
  : Parser * option jsstring :=
  match pages with
  | [] => (p, None)
  | PageFailed error :: _ => (p, Some error)
  | PageItems items :: rest => pageLoop (S i) rest (processPage i items p)
  end.

(** The merge loop of [parse]:
    [for (let i = 0; i < entryCount; i++) mergedTransactions.push(...)].
    The indices stay below both lengths, so the defaults are never read. *)
Definition mergeEntries (headerEntries : list HeaderEntry)
  (numericEntries : list NumericEntry) : list Transaction :=
  let entryCount :=
    Nat.min (List.length headerEntries) (List.length numericEntries) in
  List.map
    (fun i =>
       let h := nth i headerEntries (mkHeaderEntry 0 [] [] []) in
       let n := nth i numericEntries (mkNumericEntry 0 [] [] []) in
       mkTransaction (h_dateTime h) (h_description h) (h_referenceNo h)
         (n_debit n) (n_credit n) (n_balance n))
    (List.seq 0 entryCount).

(** [`Failed to parse PDF: ${error}`]. *)
Definition wrapError (error : jsstring) : jsstring :=
  lit "Failed to parse PDF: " ++ error.

(** [parse]: the parser after the call and the outcome of the promise. *)
Definition parse (p : Parser) (doc : LoadOutcome) : Parser * ParseResult :=
  match doc with
  | LoadFailed error => (p, Rejected (wrapError error))
  | Loaded pages =>
      let p0 :=
        mkParser [] [] (outputDir p) (debug p) (columnPositions p) [] in
      match pageLoop 1 pages p0 with
      | (p1, Some error) => (p1, Rejected (wrapError error))
      | (p1, None) =>
          let headerEntries :=
            Header.extractHeaderEntriesFromPageTexts (pageTexts p1) in
          let mergedTransactions :=
            mergeEntries headerEntries (numericEntries p1) in
          (mkParser mergedTransactions (pageTexts p1) (outputDir p1)
             (debug p1) (columnPositions p1) (numericEntries p1),
           Resolved mergedTransactions)
      end
  end.

Definition getTransactions (p : Parser) : list Transaction :=
  transactions p.

Definition getPageTexts (p : Parser) : list jsstring := pageTexts p.

Definition csvHeader : jsstring :=
  lit "Date and Time,Description,Reference No,Debit,Credit,Balance"
    ++ [10%N].

Definition quoted (s : jsstring) : jsstring := [34%N] ++ s ++ [34%N].

(** The template literal appended for one transaction. *)
Definition csvRow (t : Transaction) : jsstring :=
  quoted (dateTime t) ++ [44%N] ++ quoted (description t) ++ [44%N] ++
  quoted (referenceNo t) ++ [44%N] ++ quoted (debit t) ++ [44%N] ++
  quoted (credit t) ++ [44%N] ++ quoted (balance t) ++ [10%N].

(** [toCSV]. *)
Definition toCSV (p : Parser) : jsstring :=
  match transactions p with
  | [] => lit "No transactions found"
  | _ :: _ =>
      trim (fold_left (fun csv t => csv ++ csvRow t) (transactions p)
              csvHeader)
  end.

End GCashPDFParser.

(* ================================================================== *)
(** ** The functions of index.ts *)
(* ================================================================== *)

(** The result of a promise that carries the CSV text. *)
Inductive CsvResult : Type :=
| CsvRejected (message : jsstring)
| CsvResolved (csv : jsstring).

Module Index.

(** [parseGCashPDF]: a new parser, [await parser.parse()], then
    [parser.getTransactions()].  A rejected [parse] rejects the call. *)
Definition parseGCashPDF (doc : LoadOutcome) (options : option Options)
  : ParseResult :=
  let parser := GCashPDFParser.new options in
  match GCashPDFParser.parse parser doc with
  | (_, Rejected message) => Rejected message
  | (parser', Resolved _) =>
      Resolved (GCashPDFParser.getTransactions parser')
  end.

(** [parseGCashPDFtoCSV]: the same with [parser.toCSV()]. *)
Definition parseGCashPDFtoCSV (doc : LoadOutcome) (options : option Options)
  : CsvResult :=
  let parser := GCashPDFParser.new options in
  match GCashPDFParser.parse parser doc with
  | (_, Rejected message) => CsvRejected message
  | (parser', Resolved _) => CsvResolved (GCashPDFParser.toCSV parser')
  end.

End Index.

(* ================================================================== *)
(** * Vocabulary of the properties *)
(* ================================================================== *)

Unset Implicit Arguments.

(** A list in ascending order of a key. *)
Definition ascending {A : Type} (key : A -> Q) (l : list A) : Prop :=
  Sorted (fun a b => (key a <= key b)%Q) l.

(** The entry numbers of a sequence are 1, 2, 3, ... *)
Definition numbered (l : list NumericEntry) : Prop :=
  List.map n_entryNo l = List.seq 1 (List.length l).

(** The counter of the line loop is the number of entries. *)
Definition counted (st : nat * list NumericEntry) : Prop :=
  fst st = List.length (snd st) /\ numbered (snd st).

(** A document whose load or one of whose pages fails. *)
Definition decodeFails (doc : LoadOutcome) : Prop :=
  match doc with
  | LoadFailed _ => True
  | Loaded pages => exists e, In (PageFailed e) pages
  end.

(** The parsers that can be reached from a new one by calls of [parse]
    that were all rejected. *)
Inductive onlyFailedParses : Parser -> Prop :=
| ofp_new options : onlyFailedParses (GCashPDFParser.new options)
| ofp_parse p doc p' message :
    onlyFailedParses p ->
    GCashPDFParser.parse p doc = (p', Rejected message) ->
    onlyFailedParses p'.

(** White space only. *)
Definition all_space (l : jsstring) : Prop :=
  Forall (fun c => is_space c = true) l.

(** A matcher is exact when the input is the matched text followed by the
    rest. *)
Definition exact (m : Regex.matcher) : Prop :=
  forall s a r, m s = Some (a, r) -> s = a ++ r.

(** Digits only. *)
Definition all_digit (l : jsstring) : Prop :=
  Forall (fun c => is_digit c = true) l.

(** [w ++ g] has the shape of a separator followed by a reference number:
    three white-space code units and thirteen digits. *)
Definition sep_ref_shape (w g : jsstring) : Prop :=
  List.length w = 3%nat /\ all_space w /\
  List.length g = 13%nat /\ all_digit g.

(** What the description of a header entry is: the trimmed capture of a
    lazy match. *)
Definition isCapture (desc : jsstring) : Prop :=
  exists s d ref rest,
    Regex.lazy_description s = Some (d, ref, rest) /\ desc = trim d.

(** [/\s{3}\d{13}/.test(s)]: [s] contains three white-space characters
    directly followed by thirteen digits. *)
Definition containsSeparatorAndReference (s : jsstring) : bool :=
  Regex.test Regex.sep_ref s.

(** The header line and a data line, without their line ends. *)
Definition csvHeaderLine : jsstring :=
  lit "Date and Time,Description,Reference No,Debit,Credit,Balance".

Definition csvDataLine (t : Transaction) : jsstring :=
  GCashPDFParser.quoted (dateTime t) ++ [44%N] ++
  GCashPDFParser.quoted (description t) ++ [44%N] ++
  GCashPDFParser.quoted (referenceNo t) ++ [44%N] ++
  GCashPDFParser.quoted (debit t) ++ [44%N] ++
  GCashPDFParser.quoted (credit t) ++ [44%N] ++
  GCashPDFParser.quoted (balance t).

(** The fields that [computeColumnBoundaries] leaves alone. *)
Definition header (c : ColumnInfo) : jsstring * Q * Q :=
  (name c, x c, width c).

(** The number of leading boundaries that are at most [q]. *)
Fixpoint boundariesUpTo (q : Q) (bs : list Q) : nat :=
  match bs with
  | b :: bs' => if Num.leb b q then S (boundariesUpTo q bs') else 0%nat
  | [] => 0%nat
  end.

(** The names tested by [findIndex]: "Description" is not among them. *)
Definition detectionNames : list jsstring :=
  [ lit "Date and Time"; lit "Reference No"; lit "Debit"; lit "Credit";
    lit "Balance" ].

Definition containsAny (names : list jsstring) (s : jsstring) : bool :=
  existsb (includes s) names.

(* ================================================================== *)
(** * Example documents *)
(* ================================================================== *)

Module Examples.

Local Open Scope Q_scope.

Definition item (s : string) (px py : Q) : TextItem :=
  mkTextItem (lit s) px py None.

(** The header row of a statement. *)
Definition headerRow : list TextItem :=
  [ item "Date and Time" 30 700; item "Description" 150 700;
    item "Reference No" 300 700; item "Debit" 400 700;
    item "Credit" 480 700; item "Balance" 560 700 ].

(** A transaction row: three text fields separated by blank fragments, and
    amounts under Debit and Balance. *)
Definition row (desc : string) (py : Q) : list TextItem :=
  [ item "2024-01-15 10:30 AM" 30 py; item " " 140 py; item desc 150 py;
    item " " 290 py; item "1234567890123" 300 py;
    item "500.00" 410 py; item "1200.50" 565 py ].

Definition meralcoPage : list TextItem :=
  headerRow ++ row "Bill Payment to Meralco" 680.

Definition meralcoDoc : LoadOutcome := Loaded [PageItems meralcoPage].

(** The parser after [parse] on that document. *)
Definition meralcoParsed : Parser :=
  Eval vm_compute in
    fst (GCashPDFParser.parse (GCashPDFParser.new None) meralcoDoc).

Definition meralcoTransaction : Transaction :=
  mkTransaction (lit "2024-01-15 10:30 AM") (lit "Bill Payment to Meralco")
    (lit "1234567890123") (lit "500.00") [] (lit "1200.50").

(** A description that itself holds three consecutive spaces. *)
Definition sendMoneyDoc : LoadOutcome :=
  Loaded [PageItems (headerRow ++ row "Send   Money" 680)].

(** A document whose second page cannot be decoded. *)
Definition brokenSecondPage : LoadOutcome :=
  Loaded [PageItems meralcoPage; PageFailed (lit "Error: bad page")].

(** A first page whose header row has the three amount columns only, and
    a transaction row with an amount at x = 120, inside the interval of
    Debit. *)
Definition amountsOnlyHeader : list TextItem :=
  [ item "Debit" 100 700; item "Credit" 300 700;
    item "Balance" 500 700 ].

Definition amountsOnlyRow : list TextItem :=
  [ item "2024-01-15 10:30 AM" 10 680;
    item "500.00" 120 680; item "1200.50" 520 680 ].

Definition amountsOnlyColumns : list ColumnInfo :=
  Columns.computeColumnBoundaries
    (Columns.identifyColumnPositions (amountsOnlyHeader ++ amountsOnlyRow)).

End Examples.

(** Coordinates at which the rounding of binary64 shows. *)
Module Rounded.

Import PrimFloat.

#[local] Set Warnings "-inexact-float".

(** Two columns with centers at the doubles of 23.2 and 731.8. *)
Definition leftCenter : float := 23.2%float.

Definition rightCenter : float := 731.8%float.

Definition wideColumns : list ColumnInfo :=
  [ mkColumnInfo (lit "Debit") (Double.toQ leftCenter) 0 None None;
    mkColumnInfo (lit "Balance") (Double.toQ rightCenter) 0 None None ].

(** The double that JavaScript prints as 377.49999999999994, the one just
    below 377.5. *)
Definition meetingPoint : float := 377.49999999999994%float.

(** An amount at [meetingPoint]. *)
Definition amountAtMeetingPoint : TextItem :=
  mkTextItem (lit "1200.50") (Double.toQ meetingPoint) 680 None.

(** Two fragments at the heights 5.03 and 0.03: the difference of the two
    doubles is a little more than 5 and is rounded to 5. *)
Definition upperY : float := 5.03%float.

Definition lowerY : float := 0.03%float.

Definition upperItem : TextItem :=
  mkTextItem (lit "upper") 10 (Double.toQ upperY) None.

Definition lowerItem : TextItem :=
  mkTextItem (lit "lower") 20 (Double.toQ lowerY) None.

End Rounded.

(* ================================================================== *)
(** * Vocabulary of the further properties *)
(* ================================================================== *)

(** The clusters of a page before each is sorted from left to right: the
    first item of a cluster is the one that started it. *)
Definition rowClusters (items : list TextItem) : list (list TextItem) :=
  fold_left (fun cs item => Numeric.addToClusters item cs)
    (Arr.sort (fun a b => (item_y b - item_y a)%Q) items) [].

(** A cluster starts with its topmost item, and all its items lie at most
    5 below it. *)
Definition rowOk (c : list TextItem) : Prop :=
  match c with
  | [] => False
  | rep :: _ =>
      Forall (fun a => (item_y a <= item_y rep)%Q /\
                       (item_y rep - item_y a <= 5)%Q) c
  end.

(** Every item of [c] satisfies [P], for every cluster [c]. *)
Definition allItems (P : TextItem -> Prop) (cs : list (list TextItem))
  : Prop :=
  Forall (Forall P) cs.

(** The clusters are well formed, and every item of a later cluster lies
    more than 5 below the first item of an earlier one. *)
Fixpoint rowsOk (cs : list (list TextItem)) : Prop :=
  match cs with
  | [] => True
  | c :: rest =>
      rowOk c /\
      match c with
      | [] => False
      | rep :: _ =>
          allItems (fun b => (item_y b + 5 < item_y rep)%Q) rest
      end /\
      rowsOk rest
  end.

(** A numeric entry with at least one amount. *)
Definition hasAmount (e : NumericEntry) : bool :=
  truthy (n_debit e) || truthy (n_credit e) || truthy (n_balance e).

(** A string without white space at its ends. *)
Definition isTrimmed (s : jsstring) : Prop := trim s = s.

(** What [processLine] pushes: an entry with an amount whose fields are
    trimmed. *)
Definition amountsOk (e : NumericEntry) : Prop :=
  hasAmount e = true /\
  isTrimmed (n_debit e) /\ isTrimmed (n_credit e) /\ isTrimmed (n_balance e).

(** A matcher whose result does not depend on what follows the match, as
    long as the continuation satisfies [ok]. *)
Definition stable (ok : jsstring -> Prop) (m : Regex.matcher) : Prop :=
  forall s a r,
    m s = Some (a, r) -> forall r', ok r' -> m (a ++ r') = Some (a, r').

(** A text that does not start with a code unit of the class [p]. *)
Definition headNot (p : N -> bool) (s : jsstring) : Prop :=
  match s with
  | [] => True
  | c :: _ => p c = false
  end.

(** A matcher whose matches start, resp. end, with a code unit of the
    class [q]. *)
Definition starts (q : N -> bool) (m : Regex.matcher) : Prop :=
  forall s a r, m s = Some (a, r) -> exists c t, a = c :: t /\ q c = true.

Definition ends (q : N -> bool) (m : Regex.matcher) : Prop :=
  forall s a r, m s = Some (a, r) -> exists t c, a = t ++ [c] /\ q c = true.

(** The three header fields of a transaction are well formed. *)
Definition headerFieldsOk (dt d ref : jsstring) : Prop :=
  Regex.dateTimePattern dt = Some (dt, []) /\
  List.length ref = 13%nat /\ all_digit ref /\
  Forall (fun c => is_line_terminator c = false) d /\ isTrimmed d.

(** [items.map((item) => item.str).join(" ")]: the text of a page. *)
Definition pageTextOf (items : list TextItem) : jsstring :=
  join (lit " ") (List.map str items).

(** The pages that are decoded before the first page that fails. *)
Fixpoint decodedPages (pages : list PageOutcome) : list (list TextItem) :=
  match pages with
  | PageItems items :: rest => items :: decodedPages rest
  | _ => []
  end.

(** Two parsers with the same accumulators, and with the same column
    model as well. *)
Definition sameAccumulators (p q : Parser) : Prop :=
  transactions p = transactions q /\
  pageTexts p = pageTexts q /\
  numericEntries p = numericEntries q.

Definition sameData (p q : Parser) : Prop :=
  sameAccumulators p q /\ columnPositions p = columnPositions q.

(** A field without a double quote and without a line feed, and a
    transaction with such fields only. *)
Definition plainField (s : jsstring) : Prop :=
  ~ In 34%N s /\ ~ In 10%N s.

Definition plainTransaction (t : Transaction) : Prop :=
  plainField (dateTime t) /\ plainField (description t) /\
  plainField (referenceNo t) /\ plainField (debit t) /\
  plainField (credit t) /\ plainField (balance t).

(** A text that is empty or starts with the code unit [c]. *)
Definition stopsAt (c : N) (r : jsstring) : Prop :=
  match r with
  | [] => True
  | d :: _ => d = c
  end.

(** The value that [mid] gives for two centers of [cols] lies between
    them. *)
Definition midBetween (mid : Q -> Q -> Q) (cols : list ColumnInfo) : Prop :=
  forall a b, In a cols -> In b cols -> (x a <= x b)%Q ->
    (x a <= mid (x a) (x b))%Q /\ (mid (x a) (x b) <= x b)%Q.

(** The clusters of a page before each is sorted from left to right, for
    the subtraction [sub]. *)
Definition rowClustersWith (sub : Q -> Q -> Q) (items : list TextItem)
  : list (list TextItem) :=
  fold_left (fun cs item => Numeric.addToClustersWith sub item cs)
    (Arr.sort (fun a b => (item_y b - item_y a)%Q) items) [].

(** The tolerance test of the clustering loop, for the item [a] and a
    cluster that starts with [top]. *)
Definition nearTop (sub : Q -> Q -> Q) (top a : TextItem) : bool :=
  Num.leb (Qabs (sub (item_y a) (item_y top))) 5.

(** A cluster starts with its topmost item, and each of its other items
    passed the tolerance test against that one. *)
Definition rowOkWith (sub : Q -> Q -> Q) (c : list TextItem) : Prop :=
  match c with
  | [] => False
  | top :: rest =>
      Forall (fun a => (item_y a <= item_y top)%Q /\
                       nearTop sub top a = true) rest
  end.

(* ================================================================== *)
(** * Properties *)
(* ================================================================== *)

(** ** Arrays *)

Section ArrFacts.
Variable A : Type.

Lemma findIndex_Some (p : A -> bool) (l : list A) (i : nat) :
  Arr.findIndex p l = Some i ->
  exists a, nth_error l i = Some a /\ p a = true /\
            forall j b, (j < i)%nat -> nth_error l j = Some b -> p b = false.
Proof.
  revert i. induction l as [|a l IH]; intros i H; simpl in H.
  - discriminate.
  - destruct (p a) eqn:Ea.
    + inversion H; subst. exists a. repeat split; auto.
      intros j b Hj _. exfalso. lia.
    + destruct (Arr.findIndex p l) as [k|] eqn:Ek; [|discriminate].
      inversion H; subst. destruct (IH k eq_refl) as (c & Hc & Hp & Hlt).
      exists c. repeat split; auto.
      intros [|j] b Hj Hb; simpl in Hb.
      * inversion Hb; subst; assumption.
      * apply (Hlt j); [lia|assumption].
Qed.

Lemma findIndex_None (p : A -> bool) (l : list A) :
  Arr.findIndex p l = None <-> (forall a, In a l -> p a = false).
Proof.
  induction l as [|a l IH]; simpl.
  - split; [intros _ b []|reflexivity].
  - destruct (p a) eqn:Ea.
    + split; [discriminate|]. intros H.
      rewrite (H a) in Ea; [discriminate|now left].
    + destruct (Arr.findIndex p l) as [k|].
      * split; [discriminate|]. intros H.
        assert (X : Some k = None)
          by (apply (proj2 IH); intros b Hb; apply H; now right).
        discriminate.
      * split; [|reflexivity]. intros _ b [<-|Hb]; [assumption|].
        now apply (proj1 IH).
Qed.

Lemma mapi_from_nth_error (B : Type) (f : nat -> A -> B) (l : list A)
  (k i : nat) :
  nth_error (Arr.mapi_from f k l) i
  = option_map (f (k + i)%nat) (nth_error l i).
Proof.
  revert k i. induction l as [|a l IH]; intros k [|i]; simpl; try reflexivity.
  - now rewrite Nat.add_0_r.
  - rewrite IH. now rewrite Nat.add_succ_r.
Qed.

Lemma mapi_nth_error (B : Type) (f : nat -> A -> B) (l : list A) (i : nat) :
  nth_error (Arr.mapi f l) i = option_map (f i) (nth_error l i).
Proof. unfold Arr.mapi. now rewrite mapi_from_nth_error. Qed.

Lemma mapi_from_length (B : Type) (f : nat -> A -> B) (l : list A) (k : nat) :
  List.length (Arr.mapi_from f k l) = List.length l.
Proof. revert k. induction l; intros k; simpl; auto. Qed.

Lemma mapi_length (B : Type) (f : nat -> A -> B) (l : list A) :
  List.length (Arr.mapi f l) = List.length l.
Proof. apply mapi_from_length. Qed.

End ArrFacts.

(** ** Sorting by a key *)

Section SortFacts.
Variable A : Type.
Variable key : A -> Q.

Let cmp (a b : A) : Q := key a - key b.

Lemma cmp_positive a b : Num.ltb 0 (cmp a b) = true <-> key b < key a.
Proof.
  unfold Num.ltb, cmp. rewrite negb_true_iff.
  split.
  - intros H. destruct (Qlt_le_dec (key b) (key a)) as [Hlt|Hle]; auto.
    assert (X : Qle_bool (key a - key b) 0 = true)
      by (apply Qle_bool_iff; lra).
    congruence.
  - intros H. destruct (Qle_bool (key a - key b) 0) eqn:E; auto.
    apply Qle_bool_iff in E. lra.
Qed.

Lemma cmp_not_positive a b : Num.ltb 0 (cmp a b) = false <-> key a <= key b.
Proof.
  split.
  - intros H. destruct (Qlt_le_dec (key b) (key a)) as [Hlt|Hle]; auto.
    apply cmp_positive in Hlt. congruence.
  - intros H. destruct (Num.ltb 0 (cmp a b)) eqn:E; auto.
    apply cmp_positive in E. lra.
Qed.

Lemma insert_perm a l : Permutation (Arr.insert cmp a l) (a :: l).
Proof.
  induction l as [|b l IH]; simpl; auto.
  destruct (Num.ltb 0 (cmp a b)); auto.
  rewrite IH. apply perm_swap.
Qed.

Lemma sort_perm l : Permutation (Arr.sort cmp l) l.
Proof.
  induction l as [|a l IH]; simpl; auto.
  rewrite insert_perm. now constructor.
Qed.

Lemma insert_ascending a l :
  ascending key l -> ascending key (Arr.insert cmp a l).
Proof.
  unfold ascending. induction l as [|b l IH]; intros Hs; simpl.
  - repeat constructor.
  - destruct (Num.ltb 0 (cmp a b)) eqn:E.
    + apply Sorted_inv in Hs. destruct Hs as [Hs Hb].
      constructor; [now apply IH|].
      apply cmp_positive in E.
      destruct l as [|c l]; simpl.
      * constructor. lra.
      * destruct (Num.ltb 0 (cmp a c)); constructor;
          [now inversion Hb|lra].
    + apply cmp_not_positive in E. constructor; [assumption|].
      now constructor.
Qed.

Lemma sort_ascending l : ascending key (Arr.sort cmp l).
Proof.
  induction l as [|a l IH]; simpl.
  - constructor.
  - now apply insert_ascending.
Qed.

End SortFacts.

(** ** The merge stage *)

Section Merge.

Import GCashPDFParser.

Lemma mergeEntries_length hs ns :
  List.length (mergeEntries hs ns)
  = Nat.min (List.length hs) (List.length ns).
Proof. unfold mergeEntries. now rewrite length_map, length_seq. Qed.

Lemma mergeEntries_nth_error hs ns i :
  (i < Nat.min (List.length hs) (List.length ns))%nat ->
  exists h n,
    nth_error hs i = Some h /\ nth_error ns i = Some n /\
    nth_error (mergeEntries hs ns) i
    = Some (mkTransaction (h_dateTime h) (h_description h) (h_referenceNo h)
              (n_debit n) (n_credit n) (n_balance n)).
Proof.
  intros Hi.
  assert (Hh : (i < List.length hs)%nat) by lia.
  assert (Hn : (i < List.length ns)%nat) by lia.
  destruct (nth_error hs i) as [h|] eqn:Eh;
    [|apply nth_error_None in Eh; lia].
  destruct (nth_error ns i) as [n|] eqn:En;
    [|apply nth_error_None in En; lia].
  exists h, n. repeat split.
  unfold mergeEntries.
  rewrite nth_error_map, nth_error_seq.
  destruct (Nat.ltb_spec i (Nat.min (List.length hs) (List.length ns)));
    [|lia].
  simpl.
  rewrite (nth_error_nth _ _ _ Eh), (nth_error_nth _ _ _ En). reflexivity.
Qed.

End Merge.

(** ** Ordinals of the two record sequences *)

Section Ordinals.

Import Numeric Header GCashPDFParser.

Lemma numbered_push l d c b :
  numbered l ->
  numbered (l ++ [mkNumericEntry (S (List.length l)) d c b]).
Proof.
  unfold numbered. intros H.
  rewrite map_app, length_app, seq_app, H. reflexivity.
Qed.

Lemma processLine_counted cols st line :
  counted st -> counted (processLine cols st line).
Proof.
  intros [Hc Hn]. unfold processLine.
  destruct (isSkippedLine (lineTextOf line)); [now split|].
  destruct (negb (Regex.test Regex.dateTimePattern (lineTextOf line)));
    [now split|].
  destruct (numericFields cols line) as [[d c] b].
  destruct (truthy d || truthy c || truthy b); [|now split].
  split; simpl.
  - rewrite length_app, Hc. simpl. lia.
  - rewrite Hc. now apply numbered_push.
Qed.

Lemma fold_processLine_counted cols lines st :
  counted st -> counted (fold_left (processLine cols) lines st).
Proof.
  revert st. induction lines as [|line lines IH]; intros st H; simpl.
  - assumption.
  - apply IH. now apply processLine_counted.
Qed.

Lemma extractNumericEntries_numbered cols ns items :
  numbered ns -> numbered (extractNumericEntriesFromLineItems cols ns items).
Proof.
  intros H. unfold extractNumericEntriesFromLineItems.
  apply fold_processLine_counted. now split.
Qed.

Lemma pageLoop_numbered pages : forall i p,
  numbered (numericEntries p) ->
  numbered (numericEntries (fst (pageLoop i pages p))).
Proof.
  induction pages as [|[e|items] pages IH]; intros i p H; simpl; auto.
  apply IH. simpl. now apply extractNumericEntries_numbered.
Qed.

Lemma exec_loop_numbered fuel : forall s n,
  List.map h_entryNo (exec_loop fuel s n)
  = List.seq (S n) (List.length (exec_loop fuel s n)).
Proof.
  induction fuel as [|fuel IH]; intros s n; simpl.
  - reflexivity.
  - destruct (Regex.exec s) as [[[[m1 m2] m3] rest]|]; simpl.
    + now rewrite IH.
    + reflexivity.
Qed.

End Ordinals.

(** ** State of the parser along [parse] *)

Section ParseFacts.

Import GCashPDFParser.

Lemma pageLoop_transactions pages : forall i p,
  transactions (fst (pageLoop i pages p)) = transactions p.
Proof.
  induction pages as [|[e|items] pages IH]; intros i p; simpl; auto.
  now rewrite IH.
Qed.

Lemma pageLoop_failure pages : forall i p,
  (exists e, In (PageFailed e) pages) ->
  exists e, In (PageFailed e) pages /\ snd (pageLoop i pages p) = Some e.
Proof.
  induction pages as [|[e|items] pages IH]; intros i p [e0 H0]; simpl.
  - destruct H0.
  - exists e. split; [now left|reflexivity].
  - destruct H0 as [H0|H0]; [discriminate|].
    destruct (IH (S i) (processPage i items p)) as (e1 & H1 & H2).
    + now exists e0.
    + exists e1. split; [now right|assumption].
Qed.

Lemma pageLoop_success pages : forall i p,
  (forall e, ~ In (PageFailed e) pages) ->
  snd (pageLoop i pages p) = None.
Proof.
  induction pages as [|[e|items] pages IH]; intros i p H; simpl; auto.
  - exfalso. apply (H e). now left.
  - apply IH. intros e He. apply (H e). now right.
Qed.

(** A call of [parse] on a document that loads and whose pages all decode
    is resolved. *)
Lemma parse_resolves p pages :
  (forall e, ~ In (PageFailed e) pages) ->
  exists txs, snd (parse p (Loaded pages)) = Resolved txs.
Proof.
  intros H. simpl.
  pose proof (pageLoop_success pages 1
                (mkParser [] [] (outputDir p) (debug p)
                   (columnPositions p) []) H) as Hs.
  destruct (pageLoop 1 pages _) as [p1 [e|]]; simpl in *; [discriminate|].
  now eexists.
Qed.

Lemma parse_rejected_transactions p doc p' message :
  parse p doc = (p', Rejected message) ->
  transactions p' = transactions p \/ transactions p' = [].
Proof.
  destruct doc as [e|pages]; simpl.
  - intros H. inversion H; subst. now left.
  - pose proof (pageLoop_transactions pages 1
                  (mkParser [] [] (outputDir p) (debug p)
                     (columnPositions p) [])) as Ht.
    destruct (pageLoop 1 pages _) as [p1 [e|]]; intros H; inversion H; subst.
    right. exact Ht.
Qed.

End ParseFacts.

(** ** [trim] *)

Section TrimFacts.

Lemma trim_start_split s :
  exists l, s = l ++ trim_start s /\ all_space l.
Proof.
  induction s as [|c s (l & Hl & Hs)]; simpl.
  - exists []. split; [reflexivity|constructor].
  - destruct (is_space c) eqn:Ec.
    + exists (c :: l). split; [simpl; now f_equal|now constructor].
    + exists []. split; [reflexivity|constructor].
Qed.

Lemma trim_start_head s c t : trim_start s = c :: t -> is_space c = false.
Proof.
  induction s as [|d s IH]; simpl; [discriminate|].
  destruct (is_space d) eqn:Ed; [assumption|].
  intros H. inversion H; subst. assumption.
Qed.

Lemma trim_start_keep_last l c :
  is_space c = false -> exists l', trim_start (l ++ [c]) = l' ++ [c].
Proof.
  intros Hc. induction l as [|d l (l' & IH)]; simpl.
  - rewrite Hc. now exists [].
  - destruct (is_space d).
    + now exists l'.
    + now exists (d :: l).
Qed.

Lemma trim_end_space s c :
  is_space c = true -> trim_end (s ++ [c]) = trim_end s.
Proof.
  intros Hc. unfold trim_end. rewrite rev_app_distr. simpl. now rewrite Hc.
Qed.

Lemma trim_end_keep s c :
  is_space c = false -> trim_end (s ++ [c]) = s ++ [c].
Proof.
  intros Hc. unfold trim_end. rewrite rev_app_distr. simpl. rewrite Hc.
  change (c :: rev s) with (rev [c] ++ rev s).
  now rewrite <- rev_app_distr, rev_involutive.
Qed.

Lemma trim_end_split s :
  exists l, s = trim_end s ++ l /\ all_space l.
Proof.
  unfold trim_end.
  destruct (trim_start_split (rev s)) as (l & Hl & Hs).
  exists (rev l). split.
  - rewrite <- rev_app_distr, <- Hl. now rewrite rev_involutive.
  - unfold all_space. apply Forall_rev. exact Hs.
Qed.

Lemma trim_end_head c t :
  is_space c = false -> exists t', trim_end (c :: t) = c :: t'.
Proof.
  intros Hc. unfold trim_end. simpl.
  destruct (trim_start_keep_last (rev t) c Hc) as (l' & Hl).
  rewrite Hl, rev_app_distr. simpl. now exists (rev l').
Qed.

Lemma trim_head s c t : trim s = c :: t -> is_space c = false.
Proof.
  unfold trim. destruct (trim_start s) as [|d u] eqn:Eu.
  - discriminate.
  - pose proof (trim_start_head s d u Eu) as Hd.
    destruct (trim_end_head d u Hd) as (t' & Ht). rewrite Ht.
    intros H. inversion H; subst. assumption.
Qed.

Lemma trim_split s :
  exists l1 l2, s = l1 ++ trim s ++ l2 /\ all_space l1 /\ all_space l2.
Proof.
  destruct (trim_start_split s) as (l1 & H1 & S1).
  destruct (trim_end_split (trim_start s)) as (l2 & H2 & S2).
  exists l1, l2. repeat split; auto.
  unfold trim. now rewrite <- H2.
Qed.

End TrimFacts.

(** ** The matchers consume what they report *)

Section RegexFacts.

Import Regex.

Lemma class_exact p : exact (class p).
Proof.
  intros [|c s] a r; simpl; [discriminate|].
  destruct (p c); [|discriminate]. intros H. now inversion H.
Qed.

Lemma class_inv p s a r :
  class p s = Some (a, r) -> exists c, a = [c] /\ s = c :: r /\ p c = true.
Proof.
  destruct s as [|c s]; simpl; [discriminate|].
  destruct (p c) eqn:E; [|discriminate].
  intros H. inversion H; subst. now exists c.
Qed.

Lemma seq_inv m1 m2 s a r :
  seq m1 m2 s = Some (a, r) ->
  exists a1 r1 a2, m1 s = Some (a1, r1) /\ m2 r1 = Some (a2, r) /\
                   a = a1 ++ a2.
Proof.
  unfold seq. destruct (m1 s) as [[a1 r1]|] eqn:E1; [|discriminate].
  destruct (m2 r1) as [[a2 r2]|] eqn:E2; [|discriminate].
  intros H. inversion H; subst. now exists a1, r1, a2.
Qed.

Lemma seq_exact m1 m2 : exact m1 -> exact m2 -> exact (seq m1 m2).
Proof.
  intros H1 H2 s a r H.
  destruct (seq_inv _ _ _ _ _ H) as (a1 & r1 & a2 & E1 & E2 & ->).
  rewrite (H1 _ _ _ E1), (H2 _ _ _ E2). now rewrite app_assoc.
Qed.

Lemma rep_exact n m : exact m -> exact (rep n m).
Proof.
  intros Hm. induction n as [|n IH]; simpl.
  - intros s a r H. now inversion H.
  - now apply seq_exact.
Qed.

Lemma class_star_exact p s :
  s = fst (class_star p s) ++ snd (class_star p s).
Proof.
  induction s as [|c s IH]; simpl; [reflexivity|].
  destruct (p c); [|reflexivity].
  destruct (class_star p s) as [a r]. simpl in *. now f_equal.
Qed.

Lemma class_plus_exact p : exact (class_plus p).
Proof.
  apply seq_exact; [apply class_exact|].
  intros s a r H. inversion H as [E].
  pose proof (class_star_exact p s) as X. now rewrite E in X.
Qed.

Lemma digit_1_2_exact : exact digit_1_2.
Proof.
  intros s a r. unfold digit_1_2.
  destruct (rep 2 digit s) as [[a' r']|] eqn:E.
  - intros H. inversion H; subst.
    exact (rep_exact 2 _ (class_exact is_digit) _ _ _ E).
  - apply class_exact.
Qed.

Lemma dateTimePattern_exact : exact dateTimePattern.
Proof.
  unfold dateTimePattern, chr, digit.
  repeat first
    [ apply class_plus_exact | apply digit_1_2_exact | apply class_exact
    | apply rep_exact | apply seq_exact ].
Qed.

(** [m{n}] over a class matches exactly [n] code units of the class. *)
Lemma rep_class_inv p n : forall s a r,
  rep n (class p) s = Some (a, r) ->
  s = a ++ r /\ List.length a = n /\ Forall (fun c => p c = true) a.
Proof.
  induction n as [|n IH]; intros s a r H; simpl in H.
  - inversion H; subst. repeat split. constructor.
  - destruct (seq_inv _ _ _ _ _ H) as (a1 & r1 & a2 & E1 & E2 & ->).
    destruct (class_inv _ _ _ _ E1) as (c & -> & -> & Hc).
    destruct (IH _ _ _ E2) as (-> & Hl & Hf).
    repeat split; simpl; auto.
Qed.

Lemma rep_class_complete p n : forall a r,
  List.length a = n -> Forall (fun c => p c = true) a ->
  rep n (class p) (a ++ r) = Some (a, r).
Proof.
  induction n as [|n IH]; intros a r Hl Hf.
  - destruct a; [reflexivity|discriminate].
  - destruct a as [|c a]; [discriminate|]. inversion Hf; subst.
    simpl. unfold seq. simpl. rewrite H1.
    rewrite IH; auto.
Qed.

End RegexFacts.

(** ** The header pattern *)

Section HeaderPattern.

Import Regex Header.

Lemma sep_ref_inv s ref rest :
  sep_ref s = Some (ref, rest) ->
  exists w, s = w ++ ref ++ rest /\ sep_ref_shape w ref.
Proof.
  unfold sep_ref, space, digit.
  destruct (rep 3 (class is_space) s) as [[w r]|] eqn:E; [|discriminate].
  intros H.
  destruct (rep_class_inv _ _ _ _ _ E) as (-> & Hw & Sw).
  destruct (rep_class_inv _ _ _ _ _ H) as (-> & Hg & Sg).
  exists w. now repeat split.
Qed.

Lemma sep_ref_complete w g r :
  sep_ref_shape w g -> sep_ref (w ++ g ++ r) = Some (g, r).
Proof.
  intros (Hw & Sw & Hg & Sg). unfold sep_ref, space, digit.
  rewrite (rep_class_complete is_space 3 w (g ++ r) Hw Sw).
  now apply rep_class_complete.
Qed.

(** The description capture is not empty, holds no line terminator, and is
    followed by the separator and the reference number. *)
Lemma lazy_description_inv s : forall d ref rest,
  lazy_description s = Some (d, ref, rest) ->
  exists w, s = d ++ w ++ ref ++ rest /\ sep_ref_shape w ref /\
            d <> [] /\ Forall (fun c => is_line_terminator c = false) d.
Proof.
  induction s as [|c s IH]; intros d ref rest; simpl; [discriminate|].
  unfold dot. destruct (is_line_terminator c) eqn:Ec; simpl; [discriminate|].
  destruct (sep_ref s) as [[ref' rest']|] eqn:E.
  - intros H. inversion H; subst.
    destruct (sep_ref_inv _ _ _ E) as (w & -> & Hs).
    exists w. split; [reflexivity|]. split; [assumption|].
    split; [discriminate|]. constructor; [assumption|constructor].
  - destruct (lazy_description s) as [[[d' ref'] rest']|] eqn:El;
      [|discriminate].
    intros H. inversion H; subst.
    destruct (IH _ _ _ eq_refl) as (w & -> & Hs & _ & Hd).
    exists w. split; [reflexivity|]. split; [assumption|].
    split; [discriminate|]. now constructor.
Qed.

(** The lazy quantifier stops at the first opportunity: no proper, non-empty
    prefix of the capture is followed by a separator and a reference. *)
Lemma lazy_description_minimal s : forall d ref rest k,
  lazy_description s = Some (d, ref, rest) ->
  (1 <= k)%nat -> (k < List.length d)%nat ->
  sep_ref (skipn k s) = None.
Proof.
  induction s as [|c s IH]; intros d ref rest k; simpl; [discriminate|].
  destruct (dot c); [|discriminate].
  destruct (sep_ref s) as [[ref' rest']|] eqn:E.
  - intros H. inversion H; subst. simpl. lia.
  - destruct (lazy_description s) as [[[d' ref'] rest']|] eqn:El;
      [|discriminate].
    intros H Hk1 Hk2. inversion H; subst. simpl in Hk2.
    destruct k as [|[|k]]; [lia| exact E |].
    change (skipn (S (S k)) (c :: s)) with (skipn (S k) s).
    apply (IH _ _ _ (S k) eq_refl); lia.
Qed.

Lemma header_at_inv s dt d ref rest :
  header_at s = Some (dt, d, ref, rest) ->
  exists w1 r2,
    s = dt ++ w1 ++ r2 /\ lazy_description r2 = Some (d, ref, rest).
Proof.
  unfold header_at.
  destruct (dateTimePattern s) as [[dt' r1]|] eqn:E1; [|discriminate].
  destruct (rep 3 space r1) as [[w1 r2]|] eqn:E2; [|discriminate].
  destruct (lazy_description r2) as [[[d' ref'] rest']|] eqn:E3;
    [|discriminate].
  intros H. inversion H; subst.
  exists w1, r2. split; [|exact E3].
  rewrite (dateTimePattern_exact _ _ _ E1).
  now rewrite (rep_exact 3 _ (class_exact is_space) _ _ _ E2).
Qed.

Lemma exec_inv s : forall dt d ref rest,
  exec s = Some (dt, d, ref, rest) ->
  exists pre r2,
    s = pre ++ r2 /\ lazy_description r2 = Some (d, ref, rest).
Proof.
  induction s as [|c s IH]; intros dt d ref rest; simpl.
  - intros H. vm_compute in H. discriminate.
  - destruct (header_at (c :: s)) as [[[[a b] e] f]|] eqn:E.
    + intros H. inversion H; subst.
      destruct (header_at_inv _ _ _ _ _ E) as (w1 & r2 & Hs & Hl).
      exists (dt ++ w1), r2. now rewrite <- app_assoc.
    + intros H. destruct (IH _ _ _ _ H) as (pre & r2 & -> & Hl).
      now exists (c :: pre), r2.
Qed.

(** A match consumes at least one code unit. *)
Lemma exec_shrinks s dt d ref rest :
  exec s = Some (dt, d, ref, rest) ->
  (List.length rest < List.length s)%nat.
Proof.
  intros H. destruct (exec_inv _ _ _ _ _ H) as (pre & r2 & -> & Hl).
  destruct (lazy_description_inv _ _ _ _ Hl) as (w & -> & _ & Hd & _).
  rewrite !length_app. destruct d; [congruence|]. simpl. lia.
Qed.

(** The fuel of [extractHeaderEntriesFromPageTexts] is never used up: any
    larger amount gives the same entries. *)
Lemma exec_loop_fuel f1 : forall f2 s n,
  (List.length s < f1)%nat -> (List.length s < f2)%nat ->
  exec_loop f1 s n = exec_loop f2 s n.
Proof.
  induction f1 as [|f1 IH]; intros f2 s n H1 H2; [lia|].
  destruct f2 as [|f2]; [lia|]. simpl.
  destruct (exec s) as [[[[m1 m2] m3] rest]|] eqn:E; [|reflexivity].
  f_equal. pose proof (exec_shrinks _ _ _ _ _ E). apply IH; lia.
Qed.

Lemma exec_loop_descriptions fuel : forall s n,
  Forall (fun h => isCapture (h_description h)) (exec_loop fuel s n).
Proof.
  induction fuel as [|fuel IH]; intros s n; simpl; [constructor|].
  destruct (exec s) as [[[[m1 m2] m3] rest]|] eqn:E; [|constructor].
  constructor; [|apply IH]. simpl.
  destruct (exec_inv _ _ _ _ _ E) as (pre & r2 & _ & Hl).
  now exists r2, m2, m3, rest.
Qed.

(** A trimmed capture never contains a separator followed by a reference
    number. *)
Lemma capture_no_sep_ref desc a w g b :
  isCapture desc -> desc = a ++ w ++ g ++ b -> sep_ref_shape w g -> False.
Proof.
  intros (s & d & ref & rest & Hl & ->) Hd Hs.
  destruct (trim_split d) as (l1 & l2 & Ed & S1 & S2).
  destruct (lazy_description_inv _ _ _ _ Hl) as (w0 & Es & _ & _ & _).
  rewrite Hd in Ed.
  assert (Hlen : (List.length (l1 ++ a) < List.length d)%nat).
  { rewrite Ed. destruct Hs as (Hw & _).
    rewrite !length_app. lia. }
  destruct (l1 ++ a) as [|c0 pre] eqn:Epre.
  - apply app_eq_nil in Epre. destruct Epre as [-> ->].
    simpl in Hd. destruct Hs as (Hw & Sw & _).
    destruct w as [|c w]; [discriminate|].
    pose proof (Forall_inv Sw) as Hc. simpl in Hc.
    rewrite (trim_head d c (w ++ g ++ b) Hd) in Hc. discriminate.
  - assert (Hk : sep_ref (skipn (List.length (l1 ++ a)) s) = None).
    { apply (lazy_description_minimal s d ref rest); auto;
        rewrite Epre; simpl in *; lia. }
    assert (Es' : s = (l1 ++ a) ++ w ++ g ++ (b ++ l2 ++ w0 ++ ref ++ rest)).
    { rewrite Es, Ed. now rewrite <- !app_assoc. }
    rewrite Es' in Hk at 1.
    rewrite skipn_app, skipn_all, Nat.sub_diag in Hk. simpl in Hk.
    rewrite (sep_ref_complete _ _ _ Hs) in Hk. discriminate.
Qed.

End HeaderPattern.

(* ================================================================== *)
(** * The claims *)
(* ================================================================== *)

Section MergeClaim.

Import GCashPDFParser.

Lemma parse_resolved_length p doc p' txs :
  parse p doc = (p', Resolved txs) ->
  transactions p' = txs /\
  List.length txs
  = Nat.min
      (List.length (Header.extractHeaderEntriesFromPageTexts (pageTexts p')))
      (List.length (numericEntries p')).
Proof.
  destruct doc as [e|pages]; simpl; [discriminate|].
  destruct (pageLoop 1 pages _) as [p1 [e|]]; [discriminate|].
  intros H. inversion H; subst; clear H. simpl.
  split; [reflexivity|apply mergeEntries_length].
Qed.

(** C1.  A call of [parse] that resolves returns the list kept in the
    parser; its length is the minimum of the number of header entries
    extracted from the page texts and of the number of numeric entries, and
    its i-th transaction takes dateTime, description and referenceNo from
    the i-th header entry and debit, credit and balance from the i-th
    numeric entry. *)
Theorem parse_pairs_by_position (p : Parser) (doc : LoadOutcome)
  (p' : Parser) (txs : list Transaction) :
  parse p doc = (p', Resolved txs) ->
  getTransactions p' = txs /\
  List.length txs
  = Nat.min
      (List.length (Header.extractHeaderEntriesFromPageTexts (pageTexts p')))
      (List.length (numericEntries p')) /\
  forall i,
    (i < Nat.min
           (List.length
              (Header.extractHeaderEntriesFromPageTexts (pageTexts p')))
           (List.length (numericEntries p')))%nat ->
    exists h n,
      nth_error (Header.extractHeaderEntriesFromPageTexts (pageTexts p')) i
      = Some h /\
      nth_error (numericEntries p') i = Some n /\
      nth_error txs i
      = Some (mkTransaction (h_dateTime h) (h_description h)
                (h_referenceNo h) (n_debit n) (n_credit n) (n_balance n)).
Proof.
  destruct doc as [e|pages]; simpl; [discriminate|].
  destruct (pageLoop 1 pages _) as [p1 [e|]]; [discriminate|].
  intros H. inversion H; subst; clear H. simpl.
  split; [reflexivity|]. split.
  - apply mergeEntries_length.
  - intros i Hi. now apply mergeEntries_nth_error.
Qed.

Lemma parse_pairs_by_position_witness :
  getTransactions Examples.meralcoParsed = [Examples.meralcoTransaction] /\
  List.length [Examples.meralcoTransaction]
  = Nat.min
      (List.length
         (Header.extractHeaderEntriesFromPageTexts
            (pageTexts Examples.meralcoParsed)))
      (List.length (numericEntries Examples.meralcoParsed)).
Proof.
  pose proof (parse_pairs_by_position (new None) Examples.meralcoDoc
                Examples.meralcoParsed [Examples.meralcoTransaction]) as H.
  destruct H as (H1 & H2 & _); [vm_compute; reflexivity|].
  split; [exact H1|exact H2].
Defined.

End MergeClaim.

Section DescriptionClaim.

Import GCashPDFParser.

Lemma mergeEntries_description hs ns t :
  In t (mergeEntries hs ns) ->
  exists h, In h hs /\ description t = h_description h.
Proof.
  unfold mergeEntries. intros H. apply in_map_iff in H.
  destruct H as (i & <- & Hi). apply in_seq in Hi. simpl.
  exists (nth i hs (mkHeaderEntry 0 [] [] [])). split; [|reflexivity].
  apply nth_In. lia.
Qed.

Lemma test_true (m : Regex.matcher) (s : jsstring) :
  Regex.test m s = true ->
  exists pre suf a r, s = pre ++ suf /\ m suf = Some (a, r).
Proof.
  induction s as [|c s IH]; simpl.
  - destruct (m []) as [[a r]|] eqn:E; [|discriminate].
    intros _. now exists [], [], a, r.
  - destruct (m (c :: s)) as [[a r]|] eqn:E.
    + intros _. now exists [], (c :: s), a, r.
    + intros H. destruct (IH H) as (pre & suf & a & r & -> & Hm).
      now exists (c :: pre), suf, a, r.
Qed.

(** C6, as the code has it.  The description of a transaction returned by
    [parse] never contains the separator directly followed by a reference
    number, that is three white-space characters followed by thirteen
    digits.  Three consecutive spaces alone may occur in it. *)
Theorem description_has_no_separator_and_reference (p : Parser)
  (doc : LoadOutcome) (p' : Parser) (txs : list Transaction)
  (t : Transaction) :
  parse p doc = (p', Resolved txs) ->
  In t txs ->
  containsSeparatorAndReference (description t) = false.
Proof.
  destruct doc as [e|pages]; simpl; [discriminate|].
  destruct (pageLoop 1 pages _) as [p1 [e|]]; [discriminate|].
  intros H Ht. inversion H; subst; clear H.
  destruct (mergeEntries_description _ _ _ Ht) as (h & Hh & Eh).
  pose proof (exec_loop_descriptions
                (S (List.length (join [10%N] (pageTexts p1))))
                (join [10%N] (pageTexts p1)) 0) as Hall.
  rewrite Forall_forall in Hall.
  destruct (containsSeparatorAndReference (description t)) eqn:Ec;
    [exfalso|reflexivity].
  destruct (test_true _ _ Ec) as (pre & suf & g & r & Hd & Hm).
  destruct (sep_ref_inv _ _ _ Hm) as (w & -> & Hs).
  apply (capture_no_sep_ref (description t) pre w g r); auto.
  rewrite Eh. now apply Hall.
Qed.

Lemma description_has_no_separator_and_reference_witness :
  containsSeparatorAndReference (lit "Send   Money") = false.
Proof.
  apply (description_has_no_separator_and_reference
           (new None) Examples.sendMoneyDoc
           (fst (parse (new None) Examples.sendMoneyDoc))
           [mkTransaction (lit "2024-01-15 10:30 AM")
              (lit "Send   Money") (lit "1234567890123")
              (lit "500.00") [] (lit "1200.50")]
           (mkTransaction (lit "2024-01-15 10:30 AM")
              (lit "Send   Money") (lit "1234567890123")
              (lit "500.00") [] (lit "1200.50"))).
  - vm_compute. reflexivity.
  - left. reflexivity.
Defined.

(** C6, as stated, fails: the lazy capture runs on to the first place where
    three white-space characters are followed by thirteen digits, so three
    spaces inside the description text are kept. *)
Lemma description_may_contain_three_spaces :
  List.map description
    (getTransactions (fst (parse (new None) Examples.sendMoneyDoc)))
  = [lit "Send   Money"] /\
  includes (lit "Send   Money") (lit "   ") = true.
Proof. split; vm_compute; reflexivity. Qed.

End DescriptionClaim.

Section OrdinalClaim.

Import GCashPDFParser.

(** C7.  After a call of [parse] on a document that loaded, the entry
    numbers of the numeric entries, in the order in which they were pushed
    over all pages, are 1, 2, 3, ..., and so are the entry numbers of the
    header entries in match order. *)
Theorem entry_numbers_count_from_one (p : Parser)
  (pages : list PageOutcome) :
  List.map n_entryNo (numericEntries (fst (parse p (Loaded pages))))
  = List.seq 1
      (List.length (numericEntries (fst (parse p (Loaded pages))))) /\
  List.map h_entryNo
    (Header.extractHeaderEntriesFromPageTexts
       (pageTexts (fst (parse p (Loaded pages)))))
  = List.seq 1
      (List.length
         (Header.extractHeaderEntriesFromPageTexts
            (pageTexts (fst (parse p (Loaded pages)))))).
Proof.
  split; [|apply exec_loop_numbered].
  simpl.
  pose proof (pageLoop_numbered pages 1
                (mkParser [] [] (outputDir p) (debug p)
                   (columnPositions p) [])) as H.
  destruct (pageLoop 1 pages _) as [p1 [e|]]; simpl in *; now apply H.
Qed.

End OrdinalClaim.

Section FailureClaim.

Import GCashPDFParser.

(** C9.  When the document fails to load or one of its pages fails to
    decode, [parse] is rejected with one error, which wraps the error of
    the load or of a failed page, and returns no list.  After a failed load
    the parser is unchanged; after a failed page the list of transactions
    of the parser is empty. *)
Theorem parse_failure_gives_no_transactions (p : Parser)
  (doc : LoadOutcome) :
  decodeFails doc ->
  match doc with
  | LoadFailed error =>
      snd (parse p doc) = Rejected (wrapError error) /\
      fst (parse p doc) = p
  | Loaded pages =>
      (exists error,
         In (PageFailed error) pages /\
         snd (parse p doc) = Rejected (wrapError error)) /\
      getTransactions (fst (parse p doc)) = []
  end.
Proof.
  destruct doc as [e|pages]; simpl.
  - intros _. split; reflexivity.
  - intros Hf.
    pose proof (pageLoop_failure pages 1
                  (mkParser [] [] (outputDir p) (debug p)
                     (columnPositions p) []) Hf) as (e & Hin & He).
    pose proof (pageLoop_transactions pages 1
                  (mkParser [] [] (outputDir p) (debug p)
                     (columnPositions p) [])) as Ht.
    destruct (pageLoop 1 pages _) as [p1 [e1|]]; simpl in *;
      [|discriminate].
    inversion He; subst. split; [now exists e|exact Ht].
Qed.

(** A parser that holds the transaction of an earlier call, and a document
    whose second page fails. *)
Lemma parse_failure_gives_no_transactions_witness :
  (exists error,
     In (PageFailed error)
       [PageItems Examples.meralcoPage;
        PageFailed (lit "Error: bad page")] /\
     snd (parse Examples.meralcoParsed Examples.brokenSecondPage)
     = Rejected (wrapError error)) /\
  getTransactions
    (fst (parse Examples.meralcoParsed Examples.brokenSecondPage)) = [].
Proof.
  apply (parse_failure_gives_no_transactions Examples.meralcoParsed
           Examples.brokenSecondPage).
  exists (lit "Error: bad page"). right. left. reflexivity.
Defined.

End FailureClaim.

Section InitialStateClaim.

Import GCashPDFParser.

Lemma toCSV_empty p :
  transactions p = [] -> toCSV p = lit "No transactions found".
Proof. unfold toCSV. now intros ->. Qed.

Lemma onlyFailedParses_transactions p :
  onlyFailedParses p -> transactions p = [].
Proof.
  induction 1 as [options|p doc p' message Hp IH Hparse].
  - reflexivity.
  - destruct (parse_rejected_transactions _ _ _ _ Hparse) as [H|H];
      [now rewrite H|exact H].
Qed.

(** C10, as the code has it.  A parser that was just constructed has no
    transactions and no page texts, and [toCSV] gives the sentinel.  After
    calls of [parse] that were all rejected the transactions are still
    empty and [toCSV] still gives the sentinel (the page texts are those of
    the pages decoded before the failure). *)
Theorem new_parser_is_empty :
  (forall options,
     getTransactions (new options) = [] /\
     getPageTexts (new options) = [] /\
     toCSV (new options) = lit "No transactions found") /\
  (forall p,
     onlyFailedParses p ->
     getTransactions p = [] /\ toCSV p = lit "No transactions found").
Proof.
  split.
  - intros options. repeat split.
  - intros p Hp. pose proof (onlyFailedParses_transactions p Hp) as H.
    split; [exact H|now apply toCSV_empty].
Qed.

Lemma new_parser_is_empty_witness :
  getTransactions (fst (parse (new None) Examples.brokenSecondPage)) = [] /\
  toCSV (fst (parse (new None) Examples.brokenSecondPage))
  = lit "No transactions found".
Proof.
  apply (proj2 new_parser_is_empty).
  apply (ofp_parse (new None) Examples.brokenSecondPage _
           (wrapError (lit "Error: bad page")) (ofp_new None)).
  reflexivity.
Defined.

(** C10, as stated, fails for the page texts: a call of [parse] that is
    rejected at the second page leaves the text of the first page in the
    parser. *)
Lemma failed_parse_keeps_page_texts :
  (exists message,
     snd (parse (new None) Examples.brokenSecondPage) = Rejected message) /\
  List.length
    (getPageTexts (fst (parse (new None) Examples.brokenSecondPage)))
  = 1%nat.
Proof. split; [eexists|]; vm_compute; reflexivity. Qed.

End InitialStateClaim.

Section CsvClaim.

Import GCashPDFParser.

Lemma csvRow_dataLine t : csvRow t = csvDataLine t ++ [10%N].
Proof.
  unfold csvRow, csvDataLine. now rewrite <- !app_assoc.
Qed.

Lemma csvDataLine_last t : exists l, csvDataLine t = l ++ [34%N].
Proof.
  unfold csvDataLine, quoted.
  eexists. rewrite !app_assoc. reflexivity.
Qed.

Lemma fold_csv txs : forall csv,
  fold_left (fun csv t => csv ++ csvRow t) txs csv
  = csv ++ flat_map csvRow txs.
Proof.
  induction txs as [|t txs IH]; intros csv; cbn [fold_left flat_map].
  - now rewrite app_nil_r.
  - now rewrite IH, app_assoc.
Qed.

(** Moving the line ends from the end of each line to its front. *)
Lemma lines_shift txs : forall l,
  (l ++ [10%N]) ++ flat_map csvRow txs
  = (l ++ flat_map (fun t => 10%N :: csvDataLine t) txs) ++ [10%N].
Proof.
  induction txs as [|t txs IH]; intros l; cbn [flat_map].
  - now rewrite !app_nil_r.
  - rewrite csvRow_dataLine.
    replace ((l ++ [10%N]) ++ (csvDataLine t ++ [10%N]) ++ flat_map csvRow txs)
      with (((l ++ 10%N :: csvDataLine t) ++ [10%N]) ++ flat_map csvRow txs)
      by (now rewrite <- !app_assoc).
    rewrite IH. now rewrite <- !app_assoc.
Qed.

Lemma lines_last txs l :
  txs <> [] ->
  exists l', l ++ flat_map (fun t => 10%N :: csvDataLine t) txs = l' ++ [34%N].
Proof.
  intros Hne. destruct (exists_last Hne) as (txs' & t & ->).
  rewrite flat_map_app. cbn [flat_map]. rewrite app_nil_r.
  destruct (csvDataLine_last t) as (d & ->).
  exists (l ++ flat_map (fun t => 10%N :: csvDataLine t) txs' ++ 10%N :: d).
  now rewrite <- !app_assoc.
Qed.

Lemma toCSV_lines p :
  transactions p <> [] ->
  toCSV p
  = csvHeaderLine
      ++ flat_map (fun t => 10%N :: csvDataLine t) (transactions p).
Proof.
  intros Hne. unfold toCSV.
  destruct (transactions p) as [|t0 txs0] eqn:E; [congruence|].
  rewrite <- E in *. rewrite fold_csv.
  unfold csvHeader. fold csvHeaderLine. rewrite lines_shift.
  destruct (lines_last (transactions p) csvHeaderLine Hne) as (l' & Hl).
  unfold trim.
  assert (Hs : forall r, trim_start (csvHeaderLine ++ r) = csvHeaderLine ++ r)
    by reflexivity.
  rewrite <- app_assoc, Hs, app_assoc, Hl.
  rewrite trim_end_space by reflexivity.
  now rewrite trim_end_keep by reflexivity.
Qed.

(** C8.  [toCSV] returns exactly ["No transactions found"] when the parser
    holds no transaction, in particular after a call of [parse] that
    resolved with the header entries or the numeric entries empty; for a
    non-empty list it returns the header line of six names followed by one
    data line per transaction, in order. *)
Theorem toCSV_sentinel_or_lines :
  (forall p,
     getTransactions p = [] -> toCSV p = lit "No transactions found") /\
  (forall p doc p' txs,
     parse p doc = (p', Resolved txs) ->
     Nat.min
       (List.length
          (Header.extractHeaderEntriesFromPageTexts (pageTexts p')))
       (List.length (numericEntries p')) = 0%nat ->
     toCSV p' = lit "No transactions found") /\
  (forall p,
     getTransactions p <> [] ->
     toCSV p
     = csvHeaderLine
         ++ flat_map (fun t => 10%N :: csvDataLine t) (getTransactions p)).
Proof.
  split; [exact toCSV_empty|]. split; [|exact toCSV_lines].
  intros p doc p' txs Hparse Hmin.
  destruct (parse_resolved_length p doc p' txs Hparse) as [Ht Hl].
  apply toCSV_empty. unfold getTransactions in Ht. rewrite Ht.
  rewrite Hmin in Hl. now destruct txs.
Qed.

Lemma toCSV_sentinel_or_lines_witness :
  toCSV Examples.meralcoParsed
  = csvHeaderLine ++ 10%N :: csvDataLine Examples.meralcoTransaction.
Proof.
  destruct toCSV_sentinel_or_lines as (_ & _ & H).
  rewrite (H Examples.meralcoParsed); [reflexivity|discriminate].
Defined.

End CsvClaim.

Section ColumnClaim.

Import Columns.

Local Open Scope Q_scope.

Variable mid : Q -> Q -> Q.


Lemma computeColumnBoundariesWith_nth_error cols i :
  nth_error (computeColumnBoundariesWith mid cols) i
  = option_map
      (withBounds
         (List.length (Arr.sort (fun a b => x a - x b) cols))
         (boundariesWith mid (Arr.sort (fun a b => x a - x b) cols)) i)
      (nth_error (Arr.sort (fun a b => x a - x b) cols) i).
Proof. unfold computeColumnBoundariesWith. apply mapi_nth_error. Qed.



Lemma computeColumnBoundariesWith_length cols :
  List.length (computeColumnBoundariesWith mid cols) = List.length cols.
Proof.
  unfold computeColumnBoundariesWith. rewrite mapi_length.
  apply Permutation_length, sort_perm.
Qed.


Lemma boundariesWith_length l :
  List.length (boundariesWith mid l) = (List.length l - 1)%nat.
Proof.
  induction l as [|c l IH]; [reflexivity|].
  destruct l as [|d l]; [reflexivity|].
  change (boundariesWith mid (c :: d :: l))
    with (mid (x c) (x d) :: boundariesWith mid (d :: l)).
  simpl List.length in *. rewrite IH. lia.
Qed.

(** The boundaries are in ascending order as soon as each lies between the
    two centers it is computed from: consecutive boundaries have a center
    between them. *)
Lemma boundariesWith_ascending l :
  ascending x l -> midBetween mid l -> Sorted Qle (boundariesWith mid l).
Proof.
  unfold ascending. induction l as [|c l IH]; intros Hs Hm; [constructor|].
  destruct l as [|d l]; [constructor|].
  change (boundariesWith mid (c :: d :: l))
    with (mid (x c) (x d) :: boundariesWith mid (d :: l)).
  apply Sorted_inv in Hs. destruct Hs as [Hs Hcd].
  assert (Hm' : midBetween mid (d :: l))
    by (intros a b Ha Hb; apply Hm; now right).
  constructor; [now apply IH|].
  destruct l as [|e l]; [constructor|].
  change (boundariesWith mid (d :: e :: l))
    with (mid (x d) (x e) :: boundariesWith mid (e :: l)).
  constructor.
  apply HdRel_inv in Hcd. apply Sorted_inv in Hs. destruct Hs as [_ Hde].
  apply HdRel_inv in Hde. cbv beta in *.
  destruct (Hm c d) as [_ H1]; [now left|right; now left|assumption|].
  destruct (Hm d e) as [H2 _];
    [right; now left|right; right; now left|assumption|].
  apply Qle_trans with (x d); assumption.
Qed.

Lemma midBetween_perm l l' :
  Permutation l l' -> midBetween mid l -> midBetween mid l'.
Proof.
  intros Hp Hm a b Ha Hb. apply Hm.
  - apply Permutation_in with l'; [now apply Permutation_sym|assumption].
  - apply Permutation_in with l'; [now apply Permutation_sym|assumption].
Qed.

Lemma sorted_nth_le (l : list Q) :
  Sorted Qle l ->
  forall i j a b, (i <= j)%nat ->
    nth_error l i = Some a -> nth_error l j = Some b -> a <= b.
Proof.
  intros Hs. apply Sorted_StronglySorted in Hs;
    [|intros u v w; apply Qle_trans].
  induction Hs as [|c l Hs IH Hall]; intros i j a b Hij Ha Hb.
  - destruct i; discriminate.
  - destruct i as [|i], j as [|j]; simpl in Ha, Hb; try lia.
    + inversion Ha; inversion Hb; subst. apply Qle_refl.
    + inversion Ha; subst. rewrite Forall_forall in Hall.
      apply Hall. now apply nth_error_In with j.
    + apply (IH i j); auto. lia.
Qed.

Lemma boundariesUpTo_le q bs : (boundariesUpTo q bs <= List.length bs)%nat.
Proof.
  induction bs as [|b bs IH]; simpl; [lia|].
  destruct (Num.leb b q); simpl; lia.
Qed.

Lemma boundariesUpTo_before q bs : forall j b,
  (j < boundariesUpTo q bs)%nat -> nth_error bs j = Some b ->
  Num.leb b q = true.
Proof.
  induction bs as [|c bs IH]; intros j b Hj Hb; simpl in Hj; [lia|].
  destruct (Num.leb c q) eqn:E; [|lia].
  destruct j as [|j]; simpl in Hb.
  - now inversion Hb; subst.
  - apply (IH j); [lia|assumption].
Qed.

Lemma boundariesUpTo_at q bs : forall b,
  nth_error bs (boundariesUpTo q bs) = Some b -> Num.leb b q = false.
Proof.
  induction bs as [|c bs IH]; intros b Hb; simpl in Hb; [discriminate|].
  destruct (Num.leb c q) eqn:E; simpl in Hb.
  - now apply IH.
  - now inversion Hb; subst.
Qed.

Lemma leb_false_ltb a b : Num.leb a b = false -> Num.ltb b a = true.
Proof. unfold Num.leb, Num.ltb. now intros ->. Qed.

Lemma leb_true_ltb a b : Num.leb a b = true -> Num.ltb b a = false.
Proof. unfold Num.leb, Num.ltb. now intros ->. Qed.

(** Every coordinate [q >= 0] lies in the interval of some position of
    the column model, the first one whose boundary is beyond [q]; it lies
    in no other interval when the boundaries are between the centers. *)
Lemma intervals_cover_once cols q :
  cols <> [] -> 0 <= q ->
  exists i c,
    nth_error (computeColumnBoundariesWith mid cols) i = Some c /\
    Numeric.inColumn q c = true /\
    (midBetween mid cols ->
     forall j c',
       nth_error (computeColumnBoundariesWith mid cols) j = Some c' ->
       Numeric.inColumn q c' = true -> j = i).
Proof.
  intros Hne Hq.
  pose proof (sort_ascending _ x cols) as Hsorted.
  pose proof (Permutation_length (sort_perm _ x cols)) as Hlen.
  pose proof (midBetween_perm _ _
                (Permutation_sym (sort_perm _ x cols))) as Hmid'.
  pose proof (boundariesWith_length
                (Arr.sort (fun a b => x a - x b) cols)) as Hbl.
  set (sorted := Arr.sort (fun a b => x a - x b) cols) in *.
  set (bs := boundariesWith mid sorted) in *.
  assert (Hpos : (0 < List.length sorted)%nat).
  { rewrite Hlen. destruct cols; [congruence|simpl; lia]. }
  pose proof (boundariesUpTo_le q bs) as Hile.
  set (i := boundariesUpTo q bs) in *.
  assert (Hi : (i < List.length sorted)%nat) by lia.
  destruct (nth_error sorted i) as [c0|] eqn:Ec0;
    [|apply nth_error_None in Ec0; lia].
  exists i, (withBounds (List.length sorted) bs i c0).
  split; [|split].
  - rewrite computeColumnBoundariesWith_nth_error. fold sorted. fold bs.
    now rewrite Ec0.
  - unfold Numeric.inColumn, withBounds. simpl.
    assert (Hlo : exists lo,
               (if Nat.eqb i 0 then Some 0 else nth_error bs (i - 1))
               = Some lo /\ Num.leb lo q = true).
    { destruct (Nat.eqb_spec i 0) as [Hz|Hz].
      - exists 0. split; [reflexivity|]. now apply Qle_bool_iff.
      - destruct (nth_error bs (i - 1)) as [b|] eqn:Eb;
          [|apply nth_error_None in Eb; lia].
        exists b. split; [reflexivity|].
        apply (boundariesUpTo_before q bs (i - 1)); [fold i; lia|exact Eb]. }
    destruct Hlo as (lo & -> & Hlo).
    destruct (Nat.eqb_spec i (List.length sorted - 1)) as [Hl|Hl].
    + now rewrite Hlo.
    + destruct (nth_error bs i) as [b|] eqn:Eb;
        [|apply nth_error_None in Eb; lia].
      simpl. rewrite Hlo. simpl.
      apply leb_false_ltb. now apply (boundariesUpTo_at q bs).
  - intros Hmid.
    pose proof (boundariesWith_ascending _ Hsorted (Hmid' Hmid)) as Hbs.
    fold bs in Hbs.
    intros j c'. rewrite computeColumnBoundariesWith_nth_error.
    fold sorted. fold bs.
    destruct (nth_error sorted j) as [c1|] eqn:Ec1; [|discriminate].
    intros Hc'. inversion Hc'; subst c'; clear Hc'.
    assert (Hj : nth_error sorted j <> None) by congruence.
    apply nth_error_Some in Hj.
    unfold Numeric.inColumn, withBounds. simpl. intros Hin.
    destruct (Nat.lt_trichotomy j i) as [Hlt|[Heq|Hgt]]; [|exact Heq|];
      exfalso.
    + destruct (Nat.eqb_spec j (List.length sorted - 1)) as [Hl|Hl]; [lia|].
      destruct (if Nat.eqb j 0 then Some 0 else nth_error bs (j - 1))
        as [lo|]; [|discriminate].
      destruct (nth_error bs j) as [b|] eqn:Eb; [|discriminate].
      simpl in Hin. apply andb_true_iff in Hin. destruct Hin as [_ Hin].
      rewrite (leb_true_ltb _ _ (boundariesUpTo_before q bs j b Hlt Eb))
        in Hin. discriminate.
    + destruct (Nat.eqb_spec j 0) as [Hz|Hz]; [lia|].
      destruct (nth_error bs (j - 1)) as [b'|] eqn:Eb'; [|discriminate].
      destruct (nth_error bs i) as [b|] eqn:Eb.
      2:{ apply nth_error_None in Eb.
          assert (X : nth_error bs (j - 1) <> None) by congruence.
          apply nth_error_Some in X. lia. }
      pose proof (boundariesUpTo_at q bs b Eb) as Hb.
      assert (Hle : b <= b')
        by (apply (sorted_nth_le bs Hbs i (j - 1)); auto; lia).
      destruct (match (if Nat.eqb j (List.length sorted - 1)
                       then Some Num.PosInf
                       else option_map Num.Fin (nth_error bs j)) with
                | Some hi => Num.leb b' q && Num.lt_bound q hi
                | None => false
                end) eqn:E; [|discriminate].
      assert (Hb' : Num.leb b' q = true).
      { destruct (if Nat.eqb j (List.length sorted - 1)
                  then Some Num.PosInf
                  else option_map Num.Fin (nth_error bs j));
          [|discriminate].
        now apply andb_true_iff in E. }
      unfold Num.leb in *. apply Qle_bool_iff in Hb'.
      assert (Hbq : Qle_bool b q = true) by (apply Qle_bool_iff; lra).
      congruence.
Qed.







End ColumnClaim.

Section ColumnClaimInstances.

Import Columns.

Local Open Scope Q_scope.

(** The coordinates of the examples are the values of doubles: [ofQ]
    takes them back to those doubles. *)
Lemma rounded_examples_are_doubles :
  List.map (fun f => Double.ofQ (Double.toQ f))
    [ Rounded.leftCenter; Rounded.rightCenter; Rounded.meetingPoint;
      Rounded.upperY; Rounded.lowerY ]
  = [ Rounded.leftCenter; Rounded.rightCenter; Rounded.meetingPoint;
      Rounded.upperY; Rounded.lowerY ].
Proof. vm_compute. reflexivity. Qed.

(** In the arithmetic of the program the boundary of [wideColumns] lies
    between the two centers. *)
Lemma wideColumns_midBetween : midBetween Double.mid Rounded.wideColumns.
Proof.
  intros a b [<-|[<-|[]]] [<-|[<-|[]]] H; vm_compute in H |- *;
    try (exfalso; apply H; reflexivity);
    split; intros F; discriminate F.
Qed.



End ColumnClaimInstances.

Section RowAdmissionClaim.

Import Numeric.

(** C3.  A clustered row whose joined text contains one of the five
    markers, or is blank, or has no match of the date/time pattern, leaves
    the counter and the numeric entries as they were: no entry is pushed
    for it.  The markers are tested first, so a date/time in the same text
    does not change this. *)
Theorem rejected_row_emits_no_entry (cols : list ColumnInfo)
  (st : nat * list NumericEntry) (line : list TextItem) :
  includes (lineTextOf line) (lit "Date and Time") = true \/
  includes (lineTextOf line) (lit "STARTING BALANCE") = true \/
  includes (lineTextOf line) (lit "ENDING BALANCE") = true \/
  includes (lineTextOf line) (lit "Total Debit") = true \/
  includes (lineTextOf line) (lit "Total Credit") = true \/
  trim (lineTextOf line) = [] \/
  Regex.test Regex.dateTimePattern (lineTextOf line) = false ->
  processLine cols st line = st.
Proof.
  intros H. unfold processLine, isSkippedLine.
  destruct H as [H|[H|[H|[H|[H|[H|H]]]]]]; rewrite H; simpl;
    rewrite ?orb_true_r; try reflexivity.
  now destruct (_ || _).
Qed.

(** A row with the marker STARTING BALANCE, a date/time and an amount
    under Balance. *)
Lemma rejected_row_emits_no_entry_witness :
  Regex.test Regex.dateTimePattern
    (lineTextOf [ Examples.item "2024-01-15 10:30 AM" 30 680;
                  Examples.item "STARTING BALANCE" 150 680;
                  Examples.item "1200.50" 565 680 ]) = true /\
  processLine
    (Columns.computeColumnBoundaries Columns.fallbackColumns) (0%nat, [])
    [ Examples.item "2024-01-15 10:30 AM" 30 680;
      Examples.item "STARTING BALANCE" 150 680;
      Examples.item "1200.50" 565 680 ]
  = (0%nat, []).
Proof.
  split; [vm_compute; reflexivity|].
  apply rejected_row_emits_no_entry.
  right. left. vm_compute. reflexivity.
Defined.

End RowAdmissionClaim.

Section HeaderDetectionClaim.

Import Columns.

Lemma isHeaderCandidate_names item :
  isHeaderCandidate item = containsAny detectionNames (str item).
Proof.
  unfold isHeaderCandidate, containsAny, detectionNames. simpl.
  now rewrite orb_false_r, !orb_assoc.
Qed.

(** C4, as the code has it.  Header-row detection selects the first
    fragment whose text contains one of the five names "Date and Time",
    "Reference No", "Debit", "Credit", "Balance", and the columns are built
    from its row; the fallback columns are taken exactly when no fragment
    contains one of these five names. *)
Theorem header_row_detection (items : list TextItem) :
  (exists i h,
     nth_error items i = Some h /\
     containsAny detectionNames (str h) = true /\
     (forall j it,
        (j < i)%nat -> nth_error items j = Some it ->
        containsAny detectionNames (str it) = false) /\
     identifyColumnPositions items = columnsOfHeaderRow h items) \/
  ((forall it, In it items ->
      containsAny detectionNames (str it) = false) /\
   identifyColumnPositions items = fallbackColumns).
Proof.
  unfold identifyColumnPositions.
  destruct (Arr.findIndex isHeaderCandidate items) as [i|] eqn:E.
  - left. destruct (findIndex_Some _ _ _ _ E) as (h & Hh & Hp & Hfirst).
    exists i, h. rewrite Hh. repeat split; auto.
    + now rewrite <- isHeaderCandidate_names.
    + intros j it Hj Hit. rewrite <- isHeaderCandidate_names.
      now apply (Hfirst j).
  - right. split; [|reflexivity].
    intros it Hit. rewrite <- isHeaderCandidate_names.
    now apply (proj1 (findIndex_None _ _ _) E).
Qed.

(** C4, as stated, fails: a page whose only fragment with a column name is
    "Description" gets the fallback columns, and a "Description" fragment
    that comes first is passed over for the row of a later "Debit". *)
Lemma description_alone_is_no_header_row :
  containsAny headerNames (str (Examples.item "Description" 150 700)) = true /\
  identifyColumnPositions [Examples.item "Description" 150 700]
  = fallbackColumns /\
  List.map name
    (identifyColumnPositions
       [Examples.item "Description" 150 700; Examples.item "Debit" 400 600])
  = [lit "Debit"].
Proof. repeat split; vm_compute; reflexivity. Qed.

End HeaderDetectionClaim.

Section DebitPartitionClaim.

Import Numeric.

Local Open Scope Q_scope.

(** The partition point is the [minX] of the first column named Debit as
    long as that number is not zero. *)
Lemma debitX_minX cols col m :
  debitColumn cols = Some col -> minX col = Some m -> ~ m == 0 ->
  debitX cols = m.
Proof.
  intros Hc Hm Hz. unfold debitX. rewrite Hc, Hm.
  unfold Num.truthy. destruct (Qeq_bool m 0) eqn:E; [|reflexivity].
  apply Qeq_bool_iff in E. contradiction.
Qed.

Lemma debitX_no_debit cols : debitColumn cols = None -> debitX cols = 500.
Proof. intros Hc. unfold debitX. now rewrite Hc. Qed.

(** C5 on that page: the column model has a column named Debit, whose
    [minX] is 0 and whose interval holds x = 120, but the partition point is
    500, and the amount at x = 120 is dropped as a front item. *)
Lemma debit_leftmost_partitions_at_500 :
  option_map minX (debitColumn Examples.amountsOnlyColumns)
  = Some (Some 0) /\
  option_map (inColumn 120) (debitColumn Examples.amountsOnlyColumns)
  = Some true /\
  debitX Examples.amountsOnlyColumns = 500 /\
  List.map str
    (fst (splitLine Examples.amountsOnlyColumns Examples.amountsOnlyRow))
  = [lit "2024-01-15 10:30 AM"; lit "500.00"] /\
  numericFields Examples.amountsOnlyColumns Examples.amountsOnlyRow
  = ([], [], lit "1200.50").
Proof. repeat split; vm_compute; reflexivity. Qed.

End DebitPartitionClaim.

(* ================================================================== *)
(** * Further properties of the code *)
(* ================================================================== *)

(** ** Rows of a page *)

Section SortMore.
Variable A : Type.

(** Two comparators with the same sign sort alike. *)
Lemma sort_same_sign (cmp cmp' : A -> A -> Q) (l : list A) :
  (forall a b, Num.ltb 0 (cmp a b) = Num.ltb 0 (cmp' a b)) ->
  Arr.sort cmp l = Arr.sort cmp' l.
Proof.
  intros H. induction l as [|a l IH]; simpl; [reflexivity|].
  rewrite IH. generalize (Arr.sort cmp' l). intros m.
  induction m as [|b m IHm]; simpl; [reflexivity|].
  now rewrite H, IHm.
Qed.

Lemma sort_in (cmp : A -> A -> Q) (key : A -> Q) (l : list A) (a : A) :
  (forall a b, cmp a b = key a - key b) ->
  In a (Arr.sort cmp l) <-> In a l.
Proof.
  intros H.
  assert (E : Arr.sort cmp l = Arr.sort (fun a b => key a - key b) l)
    by (apply sort_same_sign; intros; now rewrite H).
  rewrite E. split; apply Permutation_in.
  - apply sort_perm.
  - apply Permutation_sym, sort_perm.
Qed.

Lemma StronglySorted_weaken (R R' : A -> A -> Prop) (l : list A) :
  StronglySorted R l -> (forall a b, R a b -> R' a b) ->
  StronglySorted R' l.
Proof.
  intros Hs Hw. induction Hs as [|a l Hs IH Hall]; constructor; auto.
  apply Forall_forall. intros b Hb. rewrite Forall_forall in Hall.
  apply Hw. now apply Hall.
Qed.

End SortMore.

Section Rows.

Import Numeric.

Local Open Scope Q_scope.

Lemma sort_by_y_descending items :
  StronglySorted (fun a b => item_y b <= item_y a)
    (Arr.sort (fun a b => item_y b - item_y a) items).
Proof.
  assert (E : Arr.sort (fun a b => item_y b - item_y a) items
              = Arr.sort (fun a b => (- item_y a) - (- item_y b)) items).
  { apply sort_same_sign. intros a b. unfold Num.ltb. f_equal.
    apply eq_true_iff_eq. rewrite !Qle_bool_iff. split; intros; lra. }
  rewrite E.
  pose proof (sort_ascending _ (fun a => - item_y a) items) as Hs.
  apply Sorted_StronglySorted in Hs.
  - apply (StronglySorted_weaken _ _ _ _ Hs). intros a b Hab.
    simpl in Hab. lra.
  - intros u v w Huv Hvw. simpl in *. lra.
Qed.

Lemma sort_by_y_perm items :
  Permutation (Arr.sort (fun a b => item_y b - item_y a) items) items.
Proof.
  assert (E : Arr.sort (fun a b => item_y b - item_y a) items
              = Arr.sort (fun a b => (- item_y a) - (- item_y b)) items).
  { apply sort_same_sign. intros a b. unfold Num.ltb. f_equal.
    apply eq_true_iff_eq. rewrite !Qle_bool_iff. split; intros; lra. }
  rewrite E. apply (sort_perm _ (fun a => - item_y a)).
Qed.

Lemma addToClusters_perm item cs :
  Permutation (concat (addToClusters item cs)) (item :: concat cs).
Proof.
  induction cs as [|c cs IH]; [reflexivity|].
  cbn [addToClusters]. destruct c as [|first tl].
  - cbn [concat app]. exact IH.
  - destruct (Num.leb (Qabs (item_y item - item_y first)) 5);
      cbn [concat].
    + rewrite <- app_assoc. symmetry.
      apply (Permutation_middle (first :: tl) (concat cs) item).
    + rewrite IH. symmetry.
      apply (Permutation_middle (first :: tl) (concat cs) item).
Qed.

Lemma fold_addToClusters_perm l : forall cs,
  Permutation
    (concat (fold_left (fun cs item => addToClusters item cs) l cs))
    (l ++ concat cs).
Proof.
  induction l as [|a l IH]; intros cs; simpl; [reflexivity|].
  rewrite IH, addToClusters_perm. symmetry. apply Permutation_middle.
Qed.

Lemma addToClusters_allItems (P : TextItem -> Prop) item cs :
  allItems P cs -> P item -> allItems P (addToClusters item cs).
Proof.
  unfold allItems. intros Hcs Hi.
  induction Hcs as [|c cs Hc Hcs IH]; cbn [addToClusters].
  - repeat constructor. assumption.
  - destruct c as [|first tl].
    + constructor; assumption.
    + destruct (Num.leb (Qabs (item_y item - item_y first)) 5).
      * constructor; [|assumption].
        apply Forall_app. split; [assumption|]. now repeat constructor.
      * constructor; assumption.
Qed.

Lemma far_below (a rep : TextItem) :
  item_y a <= item_y rep ->
  Num.leb (Qabs (item_y a - item_y rep)) 5 = false ->
  item_y a + 5 < item_y rep.
Proof.
  intros Hle Hf. unfold Num.leb in Hf.
  destruct (Qlt_le_dec (item_y a + 5) (item_y rep)) as [H|H]; [assumption|].
  assert (X : Qle_bool (Qabs (item_y a - item_y rep)) 5 = true).
  { apply Qle_bool_iff. apply Qabs_Qle_condition. split; lra. }
  congruence.
Qed.

Lemma close_below (a rep : TextItem) :
  item_y a <= item_y rep ->
  Num.leb (Qabs (item_y a - item_y rep)) 5 = true ->
  item_y rep - item_y a <= 5.
Proof.
  intros Hle Ht. unfold Num.leb in Ht. apply Qle_bool_iff in Ht.
  apply Qabs_Qle_condition in Ht. lra.
Qed.

Lemma addToClusters_rowsOk item cs :
  rowsOk cs ->
  allItems (fun a => item_y item <= item_y a) cs ->
  rowsOk (addToClusters item cs).
Proof.
  induction cs as [|c cs IH]; intros Hok Hle; cbn [addToClusters].
  - cbn [rowsOk rowOk]. split; [|split; [constructor|exact I]].
    constructor; [split; lra|constructor].
  - destruct Hok as (Hc & Hsep & Hrest).
    unfold allItems in Hle. apply Forall_cons_iff in Hle.
    destruct Hle as [Hlec Hlecs].
    destruct c as [|rep tl]; [destruct Hc|].
    pose proof (Forall_inv Hlec) as Hrep. cbv beta in Hrep.
    destruct (Num.leb (Qabs (item_y item - item_y rep)) 5) eqn:E.
    + cbn [rowsOk app]. split; [|split; assumption].
      unfold rowOk in *.
      change (rep :: tl ++ [item]) with ((rep :: tl) ++ [item]).
      apply Forall_app. split; [assumption|].
      constructor; [|constructor]. split; [assumption|].
      now apply close_below.
    + cbn [rowsOk]. split; [assumption|]. split.
      * apply addToClusters_allItems; [assumption|].
        now apply far_below.
      * now apply IH.
Qed.

Lemma fold_addToClusters_rowsOk l : forall cs,
  StronglySorted (fun a b => item_y b <= item_y a) l ->
  rowsOk cs ->
  (forall b, In b l -> allItems (fun a => item_y b <= item_y a) cs) ->
  rowsOk (fold_left (fun cs item => addToClusters item cs) l cs).
Proof.
  induction l as [|a l IH]; intros cs Hs Hok Hle; simpl; [assumption|].
  apply StronglySorted_inv in Hs. destruct Hs as [Hs Hall].
  apply IH; auto.
  - apply addToClusters_rowsOk; [assumption|]. apply Hle. now left.
  - intros b Hb. apply addToClusters_allItems.
    + apply Hle. now right.
    + rewrite Forall_forall in Hall. now apply Hall.
Qed.

Lemma rowClusters_rowsOk items : rowsOk (rowClusters items).
Proof.
  unfold rowClusters. apply fold_addToClusters_rowsOk.
  - apply sort_by_y_descending.
  - exact I.
  - intros b _. constructor.
Qed.

Lemma rowClusters_perm items :
  Permutation (concat (rowClusters items)) items.
Proof.
  unfold rowClusters. rewrite fold_addToClusters_perm.
  simpl. rewrite app_nil_r. apply sort_by_y_perm.
Qed.

Lemma clustersOf_rowClusters items :
  clustersOf items
  = List.map (Arr.sort (fun a b => item_x a - item_x b)) (rowClusters items).
Proof. reflexivity. Qed.

Lemma rowsOk_row cs c : rowsOk cs -> In c cs -> rowOk c.
Proof.
  induction cs as [|c0 cs IH]; intros Hok Hin; [destruct Hin|].
  destruct Hok as (Hc & _ & Hrest).
  destruct Hin as [<-|Hin]; [assumption|now apply IH].
Qed.




Lemma clustersOf_perm items :
  Permutation (concat (clustersOf items)) items.
Proof.
  rewrite clustersOf_rowClusters.
  transitivity (concat (rowClusters items)); [|apply rowClusters_perm].
  induction (rowClusters items) as [|c cs IH]; [reflexivity|].
  cbn [List.map concat]. apply Permutation_app; [|exact IH].
  apply (sort_perm _ item_x).
Qed.

Lemma clustersOf_rows items c :
  In c (clustersOf items) -> c <> [] /\ ascending item_x c.
Proof.
  intros Hc. rewrite clustersOf_rowClusters in Hc.
  apply in_map_iff in Hc. destruct Hc as (raw & <- & Hraw).
  split; [|apply (sort_ascending _ item_x)].
  pose proof (rowsOk_row _ _ (rowClusters_rowsOk items) Hraw) as Hok.
  destruct raw as [|rep tl]; [destruct Hok|].
  intros E.
  assert (Hin : In rep (Arr.sort (fun a b => item_x a - item_x b)
                          (rep :: tl)))
    by (apply (sort_in _ _ item_x); [reflexivity|now left]).
  rewrite E in Hin. destruct Hin.
Qed.

(** X1.  The clusters of a page hold every fragment of the page exactly
    once; no cluster is empty and each is in ascending order of x. *)
Theorem clusters_partition_the_page (items : list TextItem) :
  Permutation (concat (clustersOf items)) items /\
  (forall c, In c (clustersOf items) -> c <> [] /\ ascending item_x c).
Proof.
  split; [apply clustersOf_perm|apply clustersOf_rows].
Qed.

Lemma addToClustersWith_allItems (sub : Q -> Q -> Q)
  (P : TextItem -> Prop) item cs :
  allItems P cs -> P item -> allItems P (addToClustersWith sub item cs).
Proof.
  unfold allItems. intros Hcs Hi.
  induction Hcs as [|c cs Hc Hcs IH]; cbn [addToClustersWith].
  - repeat constructor. assumption.
  - destruct c as [|first tl].
    + constructor; assumption.
    + destruct (Num.leb (Qabs (sub (item_y item) (item_y first))) 5).
      * constructor; [|assumption].
        apply Forall_app. split; [assumption|]. now repeat constructor.
      * constructor; assumption.
Qed.

Lemma addToClustersWith_rowOk (sub : Q -> Q -> Q) item cs :
  Forall (rowOkWith sub) cs ->
  allItems (fun a => item_y item <= item_y a) cs ->
  Forall (rowOkWith sub) (addToClustersWith sub item cs).
Proof.
  intros Hok Hle. unfold allItems in Hle.
  induction Hok as [|c cs Hc Hok IH]; cbn [addToClustersWith].
  - repeat constructor.
  - apply Forall_cons_iff in Hle. destruct Hle as [Hlec Hlecs].
    destruct c as [|top rest]; [destruct Hc|].
    destruct (Num.leb (Qabs (sub (item_y item) (item_y top))) 5) eqn:E.
    + constructor; [|assumption]. cbn [app rowOkWith].
      apply Forall_app. split; [exact Hc|].
      constructor; [|constructor]. split; [|exact E].
      exact (Forall_inv Hlec).
    + constructor; [assumption|]. now apply IH.
Qed.

Lemma fold_addToClustersWith_rowOk (sub : Q -> Q -> Q) l : forall cs,
  StronglySorted (fun a b => item_y b <= item_y a) l ->
  Forall (rowOkWith sub) cs ->
  (forall b, In b l -> allItems (fun a => item_y b <= item_y a) cs) ->
  Forall (rowOkWith sub)
    (fold_left (fun cs item => addToClustersWith sub item cs) l cs).
Proof.
  induction l as [|a l IH]; intros cs Hs Hok Hle; simpl; [assumption|].
  apply StronglySorted_inv in Hs. destruct Hs as [Hs Hall].
  apply IH; auto.
  - apply addToClustersWith_rowOk; [assumption|]. apply Hle. now left.
  - intros b Hb. apply addToClustersWith_allItems.
    + apply Hle. now right.
    + rewrite Forall_forall in Hall. now apply Hall.
Qed.

Lemma rowClustersWith_rowOk (sub : Q -> Q -> Q) items :
  Forall (rowOkWith sub) (rowClustersWith sub items).
Proof.
  unfold rowClustersWith. apply fold_addToClustersWith_rowOk.
  - apply sort_by_y_descending.
  - constructor.
  - intros b _. constructor.
Qed.

(** [addToClusters] and [clustersOf] are the instances without rounding. *)
Lemma addToClusters_unrounded item cs :
  addToClusters item cs = addToClustersWith Qminus item cs.
Proof.
  induction cs as [|c cs IH]; [reflexivity|].
  cbn [addToClusters addToClustersWith]. now rewrite IH.
Qed.

Lemma clustersOf_unrounded items :
  clustersOf items = clustersOfWith Qminus items.
Proof.
  unfold clustersOf, clustersOfWith. f_equal.
  generalize (@nil (list TextItem)).
  induction (Arr.sort (fun a b => item_y b - item_y a) items)
    as [|a l IH]; intros cs; [reflexivity|].
  cbn [fold_left]. now rewrite addToClusters_unrounded, IH.
Qed.

(** X2.  [sub a b] stands for the value of [item.y - cluster[0].y], in the
    arithmetic of the program (IEEE binary64, [Double.sub]) or in any
    other.  Every cluster has a topmost fragment, the one that started it:
    no fragment of the cluster lies above it, and every other fragment of
    the cluster passed the tolerance test of the loop against it.  Without
    rounding the clusters are those of [clustersOf]. *)
Theorem cluster_items_are_near_the_top (sub : Q -> Q -> Q)
  (items : list TextItem) (c : list TextItem) :
  In c (clustersOfWith sub items) ->
  (exists top,
     In top c /\
     forall a, In a c ->
       item_y a <= item_y top /\ (a = top \/ nearTop sub top a = true)) /\
  clustersOf items = clustersOfWith Qminus items.
Proof.
  intros Hc. split; [|apply clustersOf_unrounded].
  change (clustersOfWith sub items)
    with (List.map (Arr.sort (fun a b => item_x a - item_x b))
            (rowClustersWith sub items)) in Hc.
  apply in_map_iff in Hc. destruct Hc as (raw & <- & Hraw).
  pose proof (rowClustersWith_rowOk sub items) as Hok.
  rewrite Forall_forall in Hok. specialize (Hok raw Hraw).
  destruct raw as [|top rest]; [destruct Hok|].
  exists top. split.
  - apply (sort_in _ _ item_x); [reflexivity|now left].
  - intros a Ha.
    apply (proj1 (sort_in _ (fun a b => item_x a - item_x b) item_x
                    (top :: rest) a (fun _ _ => eq_refl))) in Ha.
    destruct Ha as [<-|Ha].
    + split; [apply Qle_refl|now left].
    + cbn [rowOkWith] in Hok. rewrite Forall_forall in Hok.
      destruct (Hok a Ha) as [H1 H2]. split; [exact H1|now right].
Qed.


End Rows.

(** ** Numeric entries of a page *)

Section TrimMore.

Lemma trim_start_idempotent s : trim_start (trim_start s) = trim_start s.
Proof.
  induction s as [|c s IH]; [reflexivity|]. simpl.
  destruct (is_space c) eqn:E; [assumption|]. simpl. now rewrite E.
Qed.

Lemma trim_end_idempotent s : trim_end (trim_end s) = trim_end s.
Proof.
  unfold trim_end. now rewrite rev_involutive, trim_start_idempotent.
Qed.

Lemma trim_start_nonspace c t :
  is_space c = false -> trim_start (c :: t) = c :: t.
Proof. intros H. simpl. now rewrite H. Qed.

Lemma trim_idempotent s : trim (trim s) = trim s.
Proof.
  unfold trim at 1.
  assert (E : trim_start (trim s) = trim s).
  { destruct (trim s) as [|c t] eqn:Et; [reflexivity|].
    apply trim_start_nonspace. exact (trim_head s c t Et). }
  rewrite E. unfold trim. apply trim_end_idempotent.
Qed.

End TrimMore.

Section NumericMore.

Import Numeric GCashPDFParser.

Lemma numericFields_trimmed cols line d c b :
  numericFields cols line = (d, c, b) ->
  isTrimmed d /\ isTrimmed c /\ isTrimmed b.
Proof.
  unfold numericFields. intros H. inversion H; subst.
  unfold isTrimmed. repeat split; apply trim_idempotent.
Qed.

Lemma processLine_appends cols st line :
  exists new,
    snd (processLine cols st line) = snd st ++ new /\
    (List.length new <= 1)%nat /\ Forall amountsOk new.
Proof.
  unfold processLine.
  destruct (isSkippedLine (lineTextOf line));
    [exists []; rewrite app_nil_r; repeat split; auto|].
  destruct (negb (Regex.test Regex.dateTimePattern (lineTextOf line)));
    [exists []; rewrite app_nil_r; repeat split; auto|].
  destruct (numericFields cols line) as [[d c] b] eqn:E.
  destruct (truthy d || truthy c || truthy b) eqn:Et;
    [|exists []; rewrite app_nil_r; repeat split; auto].
  exists [mkNumericEntry (S (fst st)) d c b]. cbn [snd].
  split; [reflexivity|]. split; [simpl; lia|].
  constructor; [|constructor].
  destruct (numericFields_trimmed _ _ _ _ _ E) as (Hd & Hc & Hb).
  unfold amountsOk, hasAmount. cbn [n_debit n_credit n_balance].
  now repeat split.
Qed.

Lemma fold_processLine_appends cols lines : forall st,
  exists new,
    snd (fold_left (processLine cols) lines st) = snd st ++ new /\
    (List.length new <= List.length lines)%nat /\ Forall amountsOk new.
Proof.
  induction lines as [|line lines IH]; intros st; cbn [fold_left].
  - exists []. rewrite app_nil_r. repeat split; auto.
  - destruct (processLine_appends cols st line) as (n1 & E1 & L1 & F1).
    destruct (IH (processLine cols st line)) as (n2 & E2 & L2 & F2).
    exists (n1 ++ n2). rewrite E2, E1, <- app_assoc.
    split; [reflexivity|]. split.
    + rewrite length_app. cbn [List.length]. lia.
    + apply Forall_app. now split.
Qed.

Lemma nonempty_clusters_count (cs : list (list TextItem)) :
  (forall c, In c cs -> c <> []) ->
  (List.length cs <= List.length (concat cs))%nat.
Proof.
  induction cs as [|c cs IH]; intros H; [simpl; lia|].
  cbn [concat List.length]. rewrite length_app.
  assert (Hc : c <> []) by (apply H; now left).
  assert (Hl : (List.length cs <= List.length (concat cs))%nat)
    by (apply IH; intros c' Hc'; apply H; now right).
  destruct c; [congruence|]. simpl. lia.
Qed.

Lemma clustersOf_count items :
  (List.length (clustersOf items) <= List.length items)%nat.
Proof.
  rewrite <- (Permutation_length (clustersOf_perm items)).
  apply nonempty_clusters_count. intros c Hc.
  now apply (clustersOf_rows items).
Qed.

(** X4.  Extracting the numeric entries of a page keeps the entries of
    the earlier pages in front and appends at most one entry per fragment
    of the page. *)
Theorem page_entries_are_appended (cols : list ColumnInfo)
  (ns : list NumericEntry) (items : list TextItem) :
  exists new,
    extractNumericEntriesFromLineItems cols ns items = ns ++ new /\
    (List.length new <= List.length items)%nat.
Proof.
  unfold extractNumericEntriesFromLineItems.
  destruct (fold_processLine_appends cols (clustersOf items)
              (List.length ns, ns)) as (new & E & L & _).
  exists new. split; [exact E|].
  pose proof (clustersOf_count items). lia.
Qed.

Lemma extractNumericEntries_amountsOk cols ns items :
  Forall amountsOk ns ->
  Forall amountsOk (extractNumericEntriesFromLineItems cols ns items).
Proof.
  intros H. unfold extractNumericEntriesFromLineItems.
  destruct (fold_processLine_appends cols (clustersOf items)
              (List.length ns, ns)) as (new & E & _ & F).
  rewrite E. apply Forall_app. now split.
Qed.

Lemma pageLoop_amountsOk pages : forall i p,
  Forall amountsOk (numericEntries p) ->
  Forall amountsOk (numericEntries (fst (pageLoop i pages p))).
Proof.
  induction pages as [|[e|items] pages IH]; intros i p H; simpl; auto.
  apply IH. simpl. now apply extractNumericEntries_amountsOk.
Qed.

Lemma mergeEntries_amounts hs ns t :
  In t (mergeEntries hs ns) ->
  exists n,
    In n ns /\ debit t = n_debit n /\ credit t = n_credit n /\
    balance t = n_balance n.
Proof.
  unfold mergeEntries. intros H. apply in_map_iff in H.
  destruct H as (i & <- & Hi). apply in_seq in Hi. simpl.
  exists (nth i ns (mkNumericEntry 0 [] [] [])).
  split; [apply nth_In; lia|]. now repeat split.
Qed.

(** X5.  Every transaction returned by [parse] has at least one of debit,
    credit and balance non-empty, and none of the three has white space at
    its ends. *)
Theorem transactions_have_an_amount (p : Parser) (doc : LoadOutcome)
  (p' : Parser) (txs : list Transaction) (t : Transaction) :
  parse p doc = (p', Resolved txs) ->
  In t txs ->
  truthy (debit t) || truthy (credit t) || truthy (balance t) = true /\
  isTrimmed (debit t) /\ isTrimmed (credit t) /\ isTrimmed (balance t).
Proof.
  destruct doc as [e|pages]; simpl; [discriminate|].
  pose proof (pageLoop_amountsOk pages 1
                (mkParser [] [] (outputDir p) (debug p)
                   (columnPositions p) []) (Forall_nil _)) as Hall.
  destruct (pageLoop 1 pages _) as [p1 [e|]]; [discriminate|].
  intros H Ht. inversion H; subst; clear H. simpl in Hall.
  destruct (mergeEntries_amounts _ _ _ Ht) as (n & Hn & -> & -> & ->).
  rewrite Forall_forall in Hall. exact (Hall n Hn).
Qed.

End NumericMore.

(** ** Fields of the header entries *)

Section HeaderFields.

Import Regex Header GCashPDFParser.

Lemma digit_is_no_space c : is_digit c = true -> is_space c = false.
Proof.
  unfold is_digit. intros H. apply andb_true_iff in H.
  destruct H as [H1 H2]. apply N.leb_le in H1, H2.
  unfold is_space.
  repeat match goal with
  | |- context [N.eqb c ?k] =>
      rewrite (proj2 (N.eqb_neq c k)) by lia
  end.
  rewrite (proj2 (N.leb_gt 8192 c)) by lia. reflexivity.
Qed.

Lemma trim_unchanged s c t t' c' :
  s = c :: t -> s = t' ++ [c'] ->
  is_space c = false -> is_space c' = false -> trim s = s.
Proof.
  intros E1 E2 H1 H2. unfold trim.
  assert (Es : trim_start s = s) by (rewrite E1; now apply trim_start_nonspace).
  rewrite Es, E2. now apply trim_end_keep.
Qed.

Lemma trim_digits s : all_digit s -> trim s = s.
Proof.
  intros H. destruct s as [|c t]; [reflexivity|].
  destruct (@exists_last _ (c :: t)) as (t' & c' & E); [discriminate|].
  apply (trim_unchanged _ c t t' c'); auto.
  - apply digit_is_no_space. exact (Forall_inv H).
  - apply digit_is_no_space. unfold all_digit in H. rewrite E in H.
    apply Forall_app in H. destruct H as [_ H]. exact (Forall_inv H).
Qed.

(** *** Matches that do not depend on the continuation *)

Lemma class_stable p : stable (fun _ => True) (class p).
Proof.
  intros s a r H r' _. destruct (class_inv _ _ _ _ H) as (c & -> & _ & Hc).
  simpl. now rewrite Hc.
Qed.

Lemma seq_stable ok1 ok m1 m2 :
  stable ok1 m1 -> stable ok m2 ->
  (forall s a r r', m2 s = Some (a, r) -> ok r' -> ok1 (a ++ r')) ->
  stable ok (seq m1 m2).
Proof.
  intros H1 H2 Hok s a r H r' Hr'.
  destruct (seq_inv _ _ _ _ _ H) as (a1 & r1 & a2 & E1 & E2 & ->).
  unfold seq. rewrite <- app_assoc.
  rewrite (H1 _ _ _ E1 (a2 ++ r')); [|now apply (Hok r1 a2 r)].
  now rewrite (H2 _ _ _ E2 r' Hr').
Qed.

Lemma seq_stable_any ok m1 m2 :
  stable (fun _ => True) m1 -> stable ok m2 -> stable ok (seq m1 m2).
Proof. intros H1 H2. apply (seq_stable (fun _ => True)); auto. Qed.

Lemma rep_stable n p : stable (fun _ => True) (rep n (class p)).
Proof.
  induction n as [|n IH]; simpl.
  - intros s a r H r' _. now inversion H.
  - apply seq_stable_any; [apply class_stable|exact IH].
Qed.

Lemma class_star_inv p s :
  Forall (fun c => p c = true) (fst (class_star p s)) /\
  headNot p (snd (class_star p s)).
Proof.
  induction s as [|c s IH]; simpl; [split; [constructor|exact I]|].
  destruct (p c) eqn:E.
  - destruct (class_star p s) as [a r]. simpl in *.
    destruct IH. split; [now constructor|assumption].
  - simpl. split; [constructor|assumption].
Qed.

Lemma class_star_complete p a r :
  Forall (fun c => p c = true) a -> headNot p r ->
  class_star p (a ++ r) = (a, r).
Proof.
  intros Ha Hr. induction Ha as [|c a Hc Ha IH]; simpl.
  - destruct r as [|c r]; [reflexivity|]. simpl in *. now rewrite Hr.
  - now rewrite Hc, IH.
Qed.

Lemma class_plus_stable p : stable (headNot p) (class_plus p).
Proof.
  intros s a r H r' Hr'. unfold class_plus in *.
  destruct (seq_inv _ _ _ _ _ H) as (a1 & r1 & a2 & E1 & E2 & ->).
  destruct (class_inv _ _ _ _ E1) as (c & -> & -> & Hc).
  inversion E2 as [E]. pose proof (class_star_inv p r1) as [Ha _].
  rewrite E in Ha. simpl in Ha.
  unfold seq. simpl. rewrite Hc.
  now rewrite (class_star_complete p a2 r' Ha Hr').
Qed.

Lemma digit_1_2_stable : stable (headNot is_digit) digit_1_2.
Proof.
  intros s a r H r' Hr'. unfold digit_1_2, digit in *.
  destruct (rep 2 (class is_digit) s) as [[a2 r2]|] eqn:E2.
  - inversion H; subst.
    now rewrite (rep_stable 2 is_digit _ _ _ E2 r' I).
  - destruct (class_inv _ _ _ _ H) as (c & -> & -> & Hc).
    simpl. unfold seq. simpl. rewrite Hc.
    destruct r' as [|c' r'']; [reflexivity|].
    simpl in Hr'. simpl. now rewrite Hr'.
Qed.

Lemma class_starts p : starts p (class p).
Proof.
  intros s a r H. destruct (class_inv _ _ _ _ H) as (c & -> & _ & Hc).
  now exists c, [].
Qed.

Lemma seq_starts q m1 m2 : starts q m1 -> starts q (seq m1 m2).
Proof.
  intros H1 s a r H.
  destruct (seq_inv _ _ _ _ _ H) as (a1 & r1 & a2 & E1 & E2 & ->).
  destruct (H1 _ _ _ E1) as (c & t & -> & Hc). now exists c, (t ++ a2).
Qed.

Lemma digit_1_2_starts : starts is_digit digit_1_2.
Proof.
  intros s a r. unfold digit_1_2.
  destruct (rep 2 digit s) as [[a2 r2]|] eqn:E2.
  - intros H. inversion H; subst.
    apply (seq_starts is_digit digit (rep 1 digit) (class_starts _) _ _ _ E2).
  - apply class_starts.
Qed.

Lemma class_ends p : ends p (class p).
Proof.
  intros s a r H. destruct (class_inv _ _ _ _ H) as (c & -> & _ & Hc).
  now exists [], c.
Qed.

Lemma seq_ends q m1 m2 : ends q m2 -> ends q (seq m1 m2).
Proof.
  intros H2 s a r H.
  destruct (seq_inv _ _ _ _ _ H) as (a1 & r1 & a2 & E1 & E2 & ->).
  destruct (H2 _ _ _ E2) as (t & c & -> & Hc).
  exists (a1 ++ t), c. now rewrite app_assoc.
Qed.

Lemma starts_headNot (q p : N -> bool) m :
  starts q m -> (forall c, q c = true -> p c = false) ->
  forall s a r (r' : jsstring),
    m s = Some (a, r) -> True -> headNot p (a ++ r').
Proof.
  intros Hs Hqp s a r r' H _. destruct (Hs _ _ _ H) as (c & t & -> & Hc).
  simpl. now apply Hqp.
Qed.

Lemma dateTimePattern_stable : stable (fun _ => True) dateTimePattern.
Proof.
  unfold dateTimePattern, chr, digit.
  apply seq_stable_any; [apply rep_stable|].
  apply seq_stable_any; [apply class_stable|].
  apply seq_stable_any; [apply rep_stable|].
  apply seq_stable_any; [apply class_stable|].
  apply seq_stable_any; [apply rep_stable|].
  apply (seq_stable (headNot is_space)); [apply class_plus_stable| |].
  2:{ apply (starts_headNot is_digit).
      - apply seq_starts, digit_1_2_starts.
      - apply digit_is_no_space. }
  apply (seq_stable (headNot is_digit)); [apply digit_1_2_stable| |].
  2:{ apply (starts_headNot (N.eqb 58)).
      - apply seq_starts, class_starts.
      - intros c Hc. apply N.eqb_eq in Hc. now subst c. }
  apply seq_stable_any; [apply class_stable|].
  apply seq_stable_any; [apply rep_stable|].
  apply (seq_stable (headNot is_space)); [apply class_plus_stable| |].
  2:{ apply (starts_headNot (fun c => (c =? 65) || (c =? 80))%N).
      - apply seq_starts, class_starts.
      - intros c Hc. apply orb_true_iff in Hc.
        destruct Hc as [Hc|Hc]; apply N.eqb_eq in Hc; now subst c. }
  apply seq_stable_any; apply class_stable.
Qed.

Lemma dateTimePattern_ends : ends (N.eqb 77) dateTimePattern.
Proof.
  unfold dateTimePattern, chr. repeat apply seq_ends. apply class_ends.
Qed.

Lemma dateTimePattern_starts : starts is_digit dateTimePattern.
Proof.
  unfold dateTimePattern, digit. apply seq_starts.
  apply (seq_starts is_digit (class is_digit) (rep 3 (class is_digit))).
  apply class_starts.
Qed.

(** The text matched by the date/time pattern matches it on its own and is
    left alone by [trim]. *)
Lemma dateTime_capture s dt r :
  dateTimePattern s = Some (dt, r) ->
  dateTimePattern dt = Some (dt, []) /\ trim dt = dt.
Proof.
  intros H. split.
  - pose proof (dateTimePattern_stable _ _ _ H [] I) as X.
    now rewrite app_nil_r in X.
  - destruct (dateTimePattern_starts _ _ _ H) as (c & t & E1 & Hc).
    destruct (dateTimePattern_ends _ _ _ H) as (t' & c' & E2 & Hc').
    apply (trim_unchanged dt c t t' c'); auto.
    + now apply digit_is_no_space.
    + apply N.eqb_eq in Hc'. now subst c'.
Qed.

Lemma exec_header_at s : forall r,
  exec s = Some r -> exists pre suf, s = pre ++ suf /\ header_at suf = Some r.
Proof.
  induction s as [|c s IH]; intros r; simpl.
  - intros H. vm_compute in H. discriminate.
  - destruct (header_at (c :: s)) as [r0|] eqn:E.
    + intros H. inversion H; subst. now exists [], (c :: s).
    + intros H. destruct (IH _ H) as (pre & suf & -> & Hs).
      now exists (c :: pre), suf.
Qed.

Lemma header_at_fields s dt d ref rest :
  header_at s = Some (dt, d, ref, rest) ->
  headerFieldsOk (trim dt) (trim d) (trim ref).
Proof.
  unfold header_at.
  destruct (dateTimePattern s) as [[dt' r1]|] eqn:E1; [|discriminate].
  destruct (rep 3 space r1) as [[w1 r2]|] eqn:E2; [|discriminate].
  destruct (lazy_description r2) as [[[d' ref'] rest']|] eqn:E3;
    [|discriminate].
  intros H. inversion H; subst; clear H.
  destruct (dateTime_capture _ _ _ E1) as [Hdt Htrim].
  destruct (lazy_description_inv _ _ _ _ E3) as (w & _ & Hs & _ & Hd).
  destruct Hs as (_ & _ & Hlen & Hdig).
  unfold headerFieldsOk. rewrite Htrim, (trim_digits ref Hdig).
  repeat split; auto.
  - destruct (trim_split d) as (l1 & l2 & Ed & _ & _).
    rewrite Ed in Hd. apply Forall_app in Hd. destruct Hd as [_ Hd].
    apply Forall_app in Hd. now destruct Hd.
  - apply trim_idempotent.
Qed.

Lemma exec_loop_fields fuel : forall s n,
  Forall (fun h => headerFieldsOk (h_dateTime h) (h_description h)
                     (h_referenceNo h))
    (exec_loop fuel s n).
Proof.
  induction fuel as [|fuel IH]; intros s n; simpl; [constructor|].
  destruct (exec s) as [[[[m1 m2] m3] rest]|] eqn:E; [|constructor].
  constructor; [|apply IH]. simpl.
  destruct (exec_header_at _ _ E) as (pre & suf & _ & Hs).
  exact (header_at_fields _ _ _ _ _ Hs).
Qed.

Lemma mergeEntries_header hs ns t :
  In t (mergeEntries hs ns) ->
  exists h,
    In h hs /\ dateTime t = h_dateTime h /\
    description t = h_description h /\ referenceNo t = h_referenceNo h.
Proof.
  unfold mergeEntries. intros H. apply in_map_iff in H.
  destruct H as (i & <- & Hi). apply in_seq in Hi. simpl.
  exists (nth i hs (mkHeaderEntry 0 [] [] [])).
  split; [apply nth_In; lia|]. now repeat split.
Qed.

(** X6.  In every transaction returned by [parse] the dateTime field is a
    full match of the date/time pattern, the referenceNo field consists of
    exactly thirteen digits, and the description holds no line terminator
    and no white space at its ends. *)
Theorem transactions_have_wellformed_header_fields (p : Parser)
  (doc : LoadOutcome) (p' : Parser) (txs : list Transaction)
  (t : Transaction) :
  parse p doc = (p', Resolved txs) ->
  In t txs ->
  dateTimePattern (dateTime t) = Some (dateTime t, []) /\
  List.length (referenceNo t) = 13%nat /\
  all_digit (referenceNo t) /\
  Forall (fun c => is_line_terminator c = false) (description t) /\
  isTrimmed (description t).
Proof.
  destruct doc as [e|pages]; simpl; [discriminate|].
  destruct (pageLoop 1 pages _) as [p1 [e|]]; [discriminate|].
  intros H Ht. inversion H; subst; clear H.
  destruct (mergeEntries_header _ _ _ Ht) as (h & Hh & -> & -> & ->).
  pose proof (exec_loop_fields
                (S (List.length (join [10%N] (pageTexts p1))))
                (join [10%N] (pageTexts p1)) 0) as Hall.
  rewrite Forall_forall in Hall. exact (Hall h Hh).
Qed.

End HeaderFields.

(** ** The state of the parser over calls of [parse] *)

Section ParseState.

Import GCashPDFParser.

Lemma pageLoop_pageTexts pages : forall i p,
  pageTexts (fst (pageLoop i pages p))
  = pageTexts p ++ List.map pageTextOf (decodedPages pages).
Proof.
  induction pages as [|[e|items] pages IH]; intros i p; simpl.
  - now rewrite app_nil_r.
  - now rewrite app_nil_r.
  - rewrite IH. simpl. now rewrite <- app_assoc.
Qed.

Lemma decodedPages_all pages :
  (forall e, ~ In (PageFailed e) pages) ->
  List.length (decodedPages pages) = List.length pages.
Proof.
  induction pages as [|[e|items] pages IH]; intros H; simpl.
  - reflexivity.
  - exfalso. apply (H e). now left.
  - f_equal. apply IH. intros e He. apply (H e). now right.
Qed.

(** X7.  After [parse] on a document that loaded, [getPageTexts] holds one
    text per page decoded before the first failing page, in page order,
    each the fragments of the page joined by single spaces; when no page
    fails there is one text per page. *)
Theorem page_texts_follow_the_pages (p : Parser)
  (pages : list PageOutcome) :
  getPageTexts (fst (parse p (Loaded pages)))
  = List.map pageTextOf (decodedPages pages) /\
  ((forall e, ~ In (PageFailed e) pages) ->
   List.length (getPageTexts (fst (parse p (Loaded pages))))
   = List.length pages).
Proof.
  assert (E : getPageTexts (fst (parse p (Loaded pages)))
              = List.map pageTextOf (decodedPages pages)).
  { unfold getPageTexts. simpl.
    pose proof (pageLoop_pageTexts pages 1
                  (mkParser [] [] (outputDir p) (debug p)
                     (columnPositions p) [])) as H.
    destruct (pageLoop 1 pages _) as [p1 [e|]]; simpl in *; exact H. }
  split; [exact E|].
  intros H. rewrite E, length_map. now apply decodedPages_all.
Qed.

Lemma processPage_sameData i items p q :
  sameData p q -> sameData (processPage i items p) (processPage i items q).
Proof.
  intros [(Ht & Hp & Hn) Hc]. unfold processPage, sameData, sameAccumulators.
  simpl. rewrite Ht, Hp, Hn, Hc. now repeat split.
Qed.

Lemma processPage_first items p q :
  sameAccumulators p q ->
  sameData (processPage 1 items p) (processPage 1 items q).
Proof.
  intros (Ht & Hp & Hn). unfold processPage, sameData, sameAccumulators.
  simpl. rewrite Ht, Hp, Hn. now repeat split.
Qed.

Lemma pageLoop_sameData pages : forall i p q,
  sameData p q ->
  sameData (fst (pageLoop i pages p)) (fst (pageLoop i pages q)) /\
  snd (pageLoop i pages p) = snd (pageLoop i pages q).
Proof.
  induction pages as [|[e|items] pages IH]; intros i p q H; simpl;
    [split; [assumption|reflexivity]..|].
  apply IH. now apply processPage_sameData.
Qed.

Lemma pageLoop_first pages p q :
  sameAccumulators p q ->
  sameAccumulators (fst (pageLoop 1 pages p)) (fst (pageLoop 1 pages q)) /\
  snd (pageLoop 1 pages p) = snd (pageLoop 1 pages q).
Proof.
  intros H. destruct pages as [|[e|items] pages]; simpl;
    [split; [assumption|reflexivity]..|].
  destruct (pageLoop_sameData pages 2 _ _ (processPage_first items p q H))
    as [[Ha _] Hs].
  now split.
Qed.

Lemma parse_sameAccumulators p q pages :
  sameAccumulators (fst (parse p (Loaded pages)))
    (fst (parse q (Loaded pages))) /\
  snd (parse p (Loaded pages)) = snd (parse q (Loaded pages)).
Proof.
  simpl.
  destruct (pageLoop_first pages
              (mkParser [] [] (outputDir p) (debug p) (columnPositions p) [])
              (mkParser [] [] (outputDir q) (debug q) (columnPositions q) []))
    as [(Ht & Hp & Hn) Hs]; [now repeat split|].
  destruct (pageLoop 1 pages (mkParser [] [] (outputDir p) _ _ _))
    as [p1 [e|]];
  destruct (pageLoop 1 pages (mkParser [] [] (outputDir q) _ _ _))
    as [q1 [e'|]]; simpl in *; try discriminate.
  - inversion Hs; subst. now repeat split.
  - rewrite Hp, Hn. now repeat split.
Qed.

(** X8.  What [parse] gives for a document that loaded does not depend on
    what an earlier call left in the parser: for two parsers with the same
    options the outcome, the transactions, the page texts and the CSV text
    are the same. *)
Theorem parse_forgets_earlier_calls (p q : Parser)
  (pages : list PageOutcome) :
  outputDir p = outputDir q -> debug p = debug q ->
  snd (parse p (Loaded pages)) = snd (parse q (Loaded pages)) /\
  getTransactions (fst (parse p (Loaded pages)))
  = getTransactions (fst (parse q (Loaded pages))) /\
  getPageTexts (fst (parse p (Loaded pages)))
  = getPageTexts (fst (parse q (Loaded pages))) /\
  toCSV (fst (parse p (Loaded pages)))
  = toCSV (fst (parse q (Loaded pages))).
Proof.
  intros _ _.
  destruct (parse_sameAccumulators p q pages) as [(Ht & Hp & Hn) Hs].
  unfold getTransactions, getPageTexts, toCSV.
  rewrite Ht. now repeat split.
Qed.

(** A new parser and one that already parsed the Meralco page, on a
    document with a different row. *)
Lemma parse_forgets_earlier_calls_witness :
  snd (parse (new None) Examples.sendMoneyDoc)
  = snd (parse Examples.meralcoParsed Examples.sendMoneyDoc) /\
  getTransactions (fst (parse (new None) Examples.sendMoneyDoc))
  = getTransactions
      (fst (parse Examples.meralcoParsed Examples.sendMoneyDoc)) /\
  getPageTexts (fst (parse (new None) Examples.sendMoneyDoc))
  = getPageTexts
      (fst (parse Examples.meralcoParsed Examples.sendMoneyDoc)) /\
  toCSV (fst (parse (new None) Examples.sendMoneyDoc))
  = toCSV (fst (parse Examples.meralcoParsed Examples.sendMoneyDoc)).
Proof.
  apply (parse_forgets_earlier_calls (new None) Examples.meralcoParsed
           [PageItems
              (Examples.headerRow ++ Examples.row "Send   Money" 680)]);
    reflexivity.
Defined.

End ParseState.

(** ** The functions of index.ts *)

Section IndexFacts.

Import GCashPDFParser Index.

Lemma parse_resolved_is_state p doc p' txs :
  parse p doc = (p', Resolved txs) -> transactions p' = txs.
Proof.
  destruct doc as [e|pages]; simpl; [discriminate|].
  destruct (pageLoop 1 pages _) as [p1 [e|]]; [discriminate|].
  intros H. now inversion H.
Qed.

(** X9.  [parseGCashPDF] and [parseGCashPDFtoCSV] agree on every document:
    either both are rejected with the same message, or the first gives a
    list and the second the sentinel when that list is empty and otherwise
    the header line followed by one data line per transaction of that
    list. *)
Theorem index_functions_agree (doc : LoadOutcome)
  (options : option Options) :
  match parseGCashPDF doc options with
  | Rejected message =>
      parseGCashPDFtoCSV doc options = CsvRejected message
  | Resolved [] =>
      parseGCashPDFtoCSV doc options
      = CsvResolved (lit "No transactions found")
  | Resolved (t :: txs) =>
      parseGCashPDFtoCSV doc options
      = CsvResolved
          (csvHeaderLine
             ++ flat_map (fun t => 10%N :: csvDataLine t) (t :: txs))
  end.
Proof.
  unfold parseGCashPDF, parseGCashPDFtoCSV.
  destruct (parse (new options) doc) as [p' [m|txs]] eqn:E;
    [reflexivity|].
  pose proof (parse_resolved_is_state _ _ _ _ E) as Ht.
  unfold getTransactions. rewrite Ht. destruct txs as [|t txs].
  - f_equal. apply toCSV_empty. exact Ht.
  - f_equal. rewrite toCSV_lines; rewrite Ht; [reflexivity|discriminate].
Qed.

End IndexFacts.

(** ** Assignment of a fragment to a numeric column *)

Section Assignment.

Import Columns Numeric.

Local Open Scope Q_scope.

Lemma pushValue_other key v cv :
  Arr.some (JS.eqb key) [lit "Debit"; lit "Credit"; lit "Balance"] = false ->
  pushValue key v cv = cv.
Proof.
  unfold Arr.some. cbn [existsb]. intros H.
  apply orb_false_iff in H. destruct H as [H1 H].
  apply orb_false_iff in H. destruct H as [H2 H].
  apply orb_false_iff in H. destruct H as [H3 _].
  unfold pushValue. now rewrite H1, H2, H3.
Qed.

(** X10.  [mid cx nx] stands for the value of
    [current.x + (next.x - current.x) / 2], in the arithmetic of the
    program (IEEE binary64, [Double.mid]) or in any other for which that
    value lies between the two centers.  With the column model of the
    boundary computation (at least one column) a fragment at [x >= 0] is
    handed to the field named by the one column whose interval holds [x]:
    its text is appended to Debit, Credit or Balance when the column has
    that name and is dropped otherwise. *)
Theorem fragment_goes_to_its_column (mid : Q -> Q -> Q)
  (cols : list ColumnInfo) (cv : ColValues) (item : TextItem) :
  midBetween mid cols -> cols <> [] -> 0 <= item_x item ->
  exists i c,
    nth_error (computeColumnBoundariesWith mid cols) i = Some c /\
    inColumn (item_x item) c = true /\
    (forall j c',
       nth_error (computeColumnBoundariesWith mid cols) j = Some c' ->
       inColumn (item_x item) c' = true -> j = i) /\
    assignItem (computeColumnBoundariesWith mid cols) cv item
    = pushValue (name c) (str item) cv.
Proof.
  intros Hmid Hne Hx.
  destruct (intervals_cover_once mid cols (item_x item) Hne Hx)
    as (i & c & Hi & Hin & Huniq).
  specialize (Huniq Hmid).
  exists i, c. split; [exact Hi|]. split; [exact Hin|].
  split; [exact Huniq|].
  unfold assignItem.
  destruct (find (inColumn (item_x item))
              (relevantColumns (computeColumnBoundariesWith mid cols)))
    as [c'|] eqn:E.
  - apply find_some in E. destruct E as [Hc' Hin'].
    unfold relevantColumns in Hc'. apply filter_In in Hc'.
    destruct Hc' as [Hc' _]. apply In_nth_error in Hc'.
    destruct Hc' as (j & Hj).
    rewrite (Huniq j c' Hj Hin') in Hj. rewrite Hi in Hj.
    now inversion Hj.
  - symmetry. apply pushValue_other.
    destruct (Arr.some (JS.eqb (name c))
                [lit "Debit"; lit "Credit"; lit "Balance"]) eqn:Er;
      [|reflexivity].
    assert (Hc : In c (relevantColumns
                         (computeColumnBoundariesWith mid cols))).
    { unfold relevantColumns. apply filter_In.
      split; [now apply nth_error_In with i|exact Er]. }
    rewrite (find_none _ _ E c Hc) in Hin. discriminate.
Qed.

(** The columns of [wideColumns] in the arithmetic of the program, and an
    amount at the boundary of the two: it is a Balance. *)
Lemma fragment_goes_to_its_column_witness :
  assignItem (computeColumnBoundariesWith Double.mid Rounded.wideColumns)
    (mkColValues [] [] []) Rounded.amountAtMeetingPoint
  = mkColValues [] [] [lit "1200.50"] /\
  exists i c,
    nth_error (computeColumnBoundariesWith Double.mid Rounded.wideColumns) i
    = Some c /\
    inColumn (item_x Rounded.amountAtMeetingPoint) c = true /\
    (forall j c',
       nth_error (computeColumnBoundariesWith Double.mid Rounded.wideColumns)
         j = Some c' ->
       inColumn (item_x Rounded.amountAtMeetingPoint) c' = true -> j = i) /\
    assignItem (computeColumnBoundariesWith Double.mid Rounded.wideColumns)
      (mkColValues [] [] []) Rounded.amountAtMeetingPoint
    = pushValue (name c) (str Rounded.amountAtMeetingPoint)
        (mkColValues [] [] []).
Proof.
  split; [vm_compute; reflexivity|].
  apply (fragment_goes_to_its_column Double.mid Rounded.wideColumns
           (mkColValues [] [] []) Rounded.amountAtMeetingPoint).
  - exact wideColumns_midBetween.
  - discriminate.
  - vm_compute. discriminate.
Defined.

End Assignment.

(** ** Reading the CSV text back *)

Section CsvMore.

Import GCashPDFParser.

Lemma split_unique (c : N) (a : jsstring) : forall b r1 r2,
  ~ In c a -> ~ In c b -> stopsAt c r1 -> stopsAt c r2 ->
  a ++ r1 = b ++ r2 -> a = b /\ r1 = r2.
Proof.
  induction a as [|x a IH]; intros b r1 r2 Ha Hb H1 H2 E.
  - destruct b as [|y b]; [now split|]. exfalso.
    simpl in E. subst r1. simpl in H1. subst y. apply Hb. now left.
  - destruct b as [|y b].
    + exfalso. simpl in E. subst r2. simpl in H2. subst x.
      apply Ha. now left.
    + simpl in E. inversion E; subst y.
      destruct (IH b r1 r2) as [-> ->]; auto.
      * intros H. apply Ha. now right.
      * intros H. apply Hb. now right.
Qed.

Lemma csvDataLine_shape t :
  csvDataLine t
  = 34%N :: dateTime t ++ 34%N :: 44%N :: 34%N :: description t
      ++ 34%N :: 44%N :: 34%N :: referenceNo t
      ++ 34%N :: 44%N :: 34%N :: debit t
      ++ 34%N :: 44%N :: 34%N :: credit t
      ++ 34%N :: 44%N :: 34%N :: balance t ++ [34%N].
Proof.
  unfold csvDataLine, quoted. cbn [app]. now rewrite <- !app_assoc.
Qed.

Lemma csvDataLine_injective t1 t2 :
  plainTransaction t1 -> plainTransaction t2 ->
  csvDataLine t1 = csvDataLine t2 -> t1 = t2.
Proof.
  intros (A1 & A2 & A3 & A4 & A5 & A6) (B1 & B2 & B3 & B4 & B5 & B6).
  rewrite !csvDataLine_shape. intros E. inversion E as [E1]; clear E.
  apply split_unique with (c := 34%N) in E1;
    try reflexivity; try apply A1; try apply B1.
  destruct E1 as [Hdt E2]. inversion E2 as [E3]; clear E2.
  apply split_unique with (c := 34%N) in E3;
    try reflexivity; try apply A2; try apply B2.
  destruct E3 as [Hde E4]. inversion E4 as [E5]; clear E4.
  apply split_unique with (c := 34%N) in E5;
    try reflexivity; try apply A3; try apply B3.
  destruct E5 as [Hre E6]. inversion E6 as [E7]; clear E6.
  apply split_unique with (c := 34%N) in E7;
    try reflexivity; try apply A4; try apply B4.
  destruct E7 as [Hdb E8]. inversion E8 as [E9]; clear E8.
  apply split_unique with (c := 34%N) in E9;
    try reflexivity; try apply A5; try apply B5.
  destruct E9 as [Hcr E10]. inversion E10 as [E11]; clear E10.
  apply app_inv_tail in E11.
  destruct t1, t2. simpl in *. now subst.
Qed.

Lemma csvDataLine_one_line t :
  plainTransaction t -> ~ In 10%N (csvDataLine t).
Proof.
  intros (A1 & A2 & A3 & A4 & A5 & A6). rewrite csvDataLine_shape.
  intros H.
  repeat match type of H with
  | In _ (_ :: _) => destruct H as [H|H]; [discriminate H|]
  | In _ (_ ++ _) => apply in_app_or in H; destruct H as [H|H]
  | In _ [] => destruct H
  end;
  first [ now apply A1 | now apply A2 | now apply A3
        | now apply A4 | now apply A5 | now apply A6 ].
Qed.

Lemma csv_lines_injective l1 : forall l2,
  Forall plainTransaction l1 -> Forall plainTransaction l2 ->
  flat_map (fun t => 10%N :: csvDataLine t) l1
  = flat_map (fun t => 10%N :: csvDataLine t) l2 ->
  l1 = l2.
Proof.
  induction l1 as [|t1 l1 IH]; intros l2 H1 H2 E.
  - destruct l2; [reflexivity|discriminate].
  - destruct l2 as [|t2 l2]; [discriminate|].
    cbn [flat_map] in E. rewrite <- !app_comm_cons in E.
    apply (f_equal (@List.tl N)) in E. cbn [List.tl] in E.
    rename E into E1.
    inversion H1 as [|? ? P1 R1]; inversion H2 as [|? ? P2 R2]; subst.
    apply split_unique with (c := 10%N) in E1.
    + destruct E1 as [El Er].
      rewrite (csvDataLine_injective t1 t2 P1 P2 El).
      now rewrite (IH l2 R1 R2 Er).
    + now apply csvDataLine_one_line.
    + now apply csvDataLine_one_line.
    + destruct l1; simpl; auto.
    + destruct l2; simpl; auto.
Qed.

Lemma toCSV_first p :
  hd 0%N (toCSV p)
  = match transactions p with [] => 78%N | _ :: _ => 68%N end.
Proof.
  destruct (transactions p) as [|t txs] eqn:E.
  - now rewrite (toCSV_empty p E).
  - rewrite toCSV_lines by congruence. reflexivity.
Qed.

(** X11.  The CSV text tells the empty list from every other: [toCSV]
    returns ["No transactions found"] only when the parser holds no
    transaction. *)
Theorem toCSV_sentinel_means_empty (p : Parser) :
  toCSV p = lit "No transactions found" <-> getTransactions p = [].
Proof.
  split; [|apply toCSV_empty].
  intros H. pose proof (toCSV_first p) as F. rewrite H in F.
  unfold getTransactions. destruct (transactions p); [reflexivity|].
  discriminate F.
Qed.

(** X12.  The CSV text determines the transactions when no field holds a
    double quote or a line feed: two parsers with such transactions and
    the same [toCSV] text hold the same list. *)
Theorem toCSV_injective_on_plain_fields (p q : Parser) :
  Forall plainTransaction (getTransactions p) ->
  Forall plainTransaction (getTransactions q) ->
  toCSV p = toCSV q ->
  getTransactions p = getTransactions q.
Proof.
  unfold getTransactions. intros Hp Hq E.
  pose proof (toCSV_first p) as Fp. pose proof (toCSV_first q) as Fq.
  rewrite E in Fp. rewrite Fq in Fp.
  destruct (transactions p) as [|t1 l1] eqn:Ep;
  destruct (transactions q) as [|t2 l2] eqn:Eq;
    try reflexivity; try discriminate Fp.
  rewrite !toCSV_lines in E by congruence. rewrite Ep, Eq in E.
  apply app_inv_head in E. now apply csv_lines_injective.
Qed.

Lemma toCSV_injective_on_plain_fields_witness :
  getTransactions Examples.meralcoParsed
  = getTransactions
      (fst (parse Examples.meralcoParsed Examples.meralcoDoc)).
Proof.
  apply toCSV_injective_on_plain_fields.
  - constructor; [|constructor].
    unfold plainTransaction, plainField. simpl.
    repeat split; intros H;
      repeat (destruct H as [H|H]; [discriminate H|]); destruct H.
  - constructor; [|constructor].
    unfold plainTransaction, plainField. simpl.
    repeat split; intros H;
      repeat (destruct H as [H|H]; [discriminate H|]); destruct H.
  - reflexivity.
Defined.

End CsvMore.

(** ** Instances on the example documents *)

Section Instances.

Import Numeric GCashPDFParser.

Local Open Scope Q_scope.

(** Two fragments at the heights 5.03 and 0.03: in the arithmetic of the
    program their difference is 5, and they form one cluster. *)
Lemma cluster_items_are_near_the_top_witness :
  clustersOfWith Double.sub [Rounded.lowerItem; Rounded.upperItem]
  = [[Rounded.upperItem; Rounded.lowerItem]] /\
  exists top,
    In top [Rounded.upperItem; Rounded.lowerItem] /\
    forall a, In a [Rounded.upperItem; Rounded.lowerItem] ->
      item_y a <= item_y top /\
      (a = top \/ nearTop Double.sub top a = true).
Proof.
  split; [vm_compute; reflexivity|].
  apply (cluster_items_are_near_the_top Double.sub
           [Rounded.lowerItem; Rounded.upperItem]
           [Rounded.upperItem; Rounded.lowerItem]).
  left. vm_compute. reflexivity.
Defined.


Lemma transactions_have_an_amount_witness :
  truthy (debit Examples.meralcoTransaction)
  || truthy (credit Examples.meralcoTransaction)
  || truthy (balance Examples.meralcoTransaction) = true /\
  isTrimmed (debit Examples.meralcoTransaction) /\
  isTrimmed (credit Examples.meralcoTransaction) /\
  isTrimmed (balance Examples.meralcoTransaction).
Proof.
  apply (transactions_have_an_amount (new None) Examples.meralcoDoc
           Examples.meralcoParsed [Examples.meralcoTransaction]).
  - vm_compute. reflexivity.
  - left. reflexivity.
Defined.

Lemma transactions_have_wellformed_header_fields_witness :
  Regex.dateTimePattern (dateTime Examples.meralcoTransaction)
  = Some (dateTime Examples.meralcoTransaction, []) /\
  List.length (referenceNo Examples.meralcoTransaction) = 13%nat /\
  all_digit (referenceNo Examples.meralcoTransaction) /\
  Forall (fun c => is_line_terminator c = false)
    (description Examples.meralcoTransaction) /\
  isTrimmed (description Examples.meralcoTransaction).
Proof.
  apply (transactions_have_wellformed_header_fields (new None)
           Examples.meralcoDoc Examples.meralcoParsed
           [Examples.meralcoTransaction]).
  - vm_compute. reflexivity.
  - left. reflexivity.
Defined.

End Instances.

(** ** Header entries need the separators *)

Section Separators.

Import Regex Header GCashPDFParser.

Lemma test_complete (m : matcher) (pre : jsstring) : forall suf a r,
  m suf = Some (a, r) -> test m (pre ++ suf) = true.
Proof.
  induction pre as [|c pre IH]; intros suf a r H.
  - destruct suf as [|d suf]; simpl; now rewrite H.
  - cbn [app test]. destruct (m (c :: pre ++ suf)); [reflexivity|].
    now apply (IH suf a r).
Qed.

Lemma exec_needs_separator s :
  test (rep 3 space) s = false -> exec s = None.
Proof.
  intros Ht. destruct (exec s) as [[[[dt d] ref] rest]|] eqn:E;
    [exfalso|reflexivity].
  destruct (exec_header_at _ _ E) as (pre & suf & -> & Hs).
  unfold header_at in Hs.
  destruct (dateTimePattern suf) as [[dt' r1]|] eqn:E1; [|discriminate].
  destruct (rep 3 space r1) as [[w1 r2]|] eqn:E2; [|discriminate].
  rewrite (dateTimePattern_exact _ _ _ E1), app_assoc in Ht.
  rewrite (test_complete _ _ _ _ _ E2) in Ht. discriminate.
Qed.

(** X13.  When the text of the decoded pages, joined by line feeds, has no
    three consecutive white-space characters, [parse] finds no header
    entry: the parser holds no transaction and [toCSV] gives the sentinel,
    whatever the numeric entries are. *)
Theorem no_separator_no_transactions (p : Parser)
  (pages : list PageOutcome) :
  test (rep 3 space)
    (join [10%N] (List.map pageTextOf (decodedPages pages))) = false ->
  getTransactions (fst (parse p (Loaded pages))) = [] /\
  toCSV (fst (parse p (Loaded pages))) = lit "No transactions found".
Proof.
  intros Ht.
  assert (E : getTransactions (fst (parse p (Loaded pages))) = []).
  { unfold getTransactions. simpl.
    pose proof (pageLoop_pageTexts pages 1
                  (mkParser [] [] (outputDir p) (debug p)
                     (columnPositions p) [])) as Hp.
    pose proof (pageLoop_transactions pages 1
                  (mkParser [] [] (outputDir p) (debug p)
                     (columnPositions p) [])) as Htx.
    destruct (pageLoop 1 pages _) as [p1 [e|]]; simpl in *;
      [exact Htx|].
    unfold extractHeaderEntriesFromPageTexts. rewrite Hp.
    cbn [exec_loop]. now rewrite (exec_needs_separator _ Ht). }
  split; [exact E|]. now apply toCSV_empty.
Qed.

(** The Meralco row without the blank fragments: the amounts are found,
    the header fields are not. *)
Lemma no_separator_no_transactions_witness :
  List.length
    (numericEntries
       (fst (parse (new None)
               (Loaded [PageItems
                          (Examples.headerRow ++
                           [ Examples.item "2024-01-15 10:30 AM" 30 680;
                             Examples.item "Bill Payment" 150 680;
                             Examples.item "1234567890123" 300 680;
                             Examples.item "500.00" 410 680;
                             Examples.item "1200.50" 565 680 ])]))))
  = 1%nat /\
  getTransactions
    (fst (parse (new None)
            (Loaded [PageItems
                       (Examples.headerRow ++
                        [ Examples.item "2024-01-15 10:30 AM" 30 680;
                          Examples.item "Bill Payment" 150 680;
                          Examples.item "1234567890123" 300 680;
                          Examples.item "500.00" 410 680;
                          Examples.item "1200.50" 565 680 ])]))) = [].
Proof.
  split; [vm_compute; reflexivity|].
  apply (no_separator_no_transactions (new None)).
  vm_compute. reflexivity.
Defined.

End Separators.

(** ** The column model of a call *)

Section ColumnModelOfCall.

Import Columns Numeric GCashPDFParser.



End ColumnModelOfCall.
